(** * DeepCore chess: the rules engine and the engine configuration

    A shallow embedding of [chess/pieces.py], [chess/game.py] and
    [engine/deepcore.py], and the properties of the rules engine proved
    over it.

    - Python integers are [Z]; a square is a pair [(row, col)].
    - The board is a Python [dict] keyed by squares.  Its iteration
      order (insertion order) decides the order of the move lists the
      engine returns, so it is modelled as an association list with
      in-place update ([Dict]); uniqueness of keys is the well-formedness
      condition [Dict.wf].
    - [castling_rights] and [DeepCore._config] are dicts that are only
      looked up and assigned by key: they are [gmap string _].
    - Pieces are objects: a piece carries its identity [pid]; the mutable
      attribute [has_moved] lives in a store of the game, the set of the
      identities whose flag is set.
    - Methods that assign to [self], or may raise, run in the state and
      exception monad [M]. *)

From Stdlib Require Import ZArith List Bool Lia String.
From stdpp Require Import gmap strings list fin_maps.
Import ListNotations.
Local Open Scope Z_scope.

(** ** Squares *)

Definition Square : Type := (Z * Z)%type.

Definition sq_eqb (a b : Square) : bool :=
  (fst a =? fst b) && (snd a =? snd b).

(** [pos in moves] on a list of squares. *)
Definition sq_in (p : Square) (l : list Square) : bool := existsb (sq_eqb p) l.

(** ** Python dictionaries with insertion order *)

Module Dict.
Section Dict.
Context {V : Type}.

Definition t : Type := list (Square * V).

(** [d[k]]: [None] stands for [KeyError]. *)
Fixpoint index (d : t) (k : Square) : option V :=
  match d with
  | [] => None
  | (k', v) :: r => if sq_eqb k k' then Some v else index r k
  end.

(** [d[k] = v]: an existing key keeps its place, a new key goes last. *)
Fixpoint set (d : t) (k : Square) (v : V) : t :=
  match d with
  | [] => [(k, v)]
  | (k', v') :: r => if sq_eqb k k' then (k, v) :: r else (k', v') :: set r k v
  end.

Definition keys (d : t) : list Square := map fst d.

(** Keys of a dict are unique. *)
Definition wf (d : t) : Prop := List.NoDup (keys d).

(** The same, as a test. *)
Definition wfb (d : t) : bool :=
  (fix distinct (l : list Square) : bool :=
     match l with
     | [] => true
     | k :: r => negb (sq_in k r) && distinct r
     end) (keys d).
End Dict.
Arguments t : clear implicits.
End Dict.

(** ** chess/const.py *)

Definition BOARD_SIZE : Z := 8.

(** ** chess/pieces.py *)

Inductive Color := White | Black.

Definition color_eqb (a b : Color) : bool :=
  match a, b with
  | White, White | Black, Black => true
  | _, _ => false
  end.

(** The string a colour is in the source, ['white'] or ['black']. *)
Definition color_name (c : Color) : string :=
  match c with White => "white" | Black => "black" end.

(** The subclasses of [Piece]. *)
Inductive PieceKind := Pawn | Knight | Bishop | Rook | Queen | King.

Definition kind_eqb (a b : PieceKind) : bool :=
  match a, b with
  | Pawn, Pawn | Knight, Knight | Bishop, Bishop
  | Rook, Rook | Queen, Queen | King, King => true
  | _, _ => false
  end.

(** A piece object: its identity, its class and its colour.  The
    attributes [value], [captured] and [texture] are never read by the
    rules; [has_moved] is mutable and is kept in the game's store. *)
Record Piece := mkPiece { pid : nat; kind : PieceKind; color : Color }.

Definition Board : Type := Dict.t (option Piece).

(** [board.get(pos)]: a missing key reads as [None]. *)
Definition board_get (b : Board) (pos : Square) : option Piece :=
  match Dict.index b pos with
  | Some v => v
  | None => None
  end.

Module Pieces.

Definition is_valid_position (row col : Z) : bool :=
  (0 <=? row) && (row <? BOARD_SIZE) && (0 <=? col) && (col <? BOARD_SIZE).

Definition is_enemy_piece (self : Piece) (piece : option Piece) : bool :=
  match piece with
  | Some p => negb (color_eqb (color p) (color self))
  | None => false
  end.

Definition is_empty_square (piece : option Piece) : bool :=
  match piece with
  | None => true
  | Some _ => false
  end.

(** [Pawn.possible_moves] *)
Definition pawn_moves (self : Piece) (piece_position : Square) (board : Board)
  : list Square :=
  let '(row, col) := piece_position in
  let direction := if color_eqb (color self) Black then 1 else -1 in
  let start_row := if color_eqb (color self) Black then 1 else 6 in
  let forward_one := (row + direction, col) in
  let forward :=
    if is_valid_position (fst forward_one) (snd forward_one)
       && is_empty_square (board_get board forward_one)
    then
      forward_one ::
      (if row =? start_row then
         let forward_two := (row + 2 * direction, col) in
         if is_valid_position (fst forward_two) (snd forward_two)
            && is_empty_square (board_get board forward_two)
         then [forward_two] else []
       else [])
    else [] in
  forward ++
  flat_map (fun col_offset =>
              let capture_pos := (row + direction, col + col_offset) in
              if is_valid_position (fst capture_pos) (snd capture_pos)
                 && is_enemy_piece self (board_get board capture_pos)
              then [capture_pos] else [])
           [-1; 1].

(** The loop shared by [Knight.possible_moves] and [King.possible_moves]:
    one step by each offset, kept when on the board and empty or enemy. *)
Definition step_moves (self : Piece) (piece_position : Square) (board : Board)
           (offsets : list (Z * Z)) : list Square :=
  let '(row, col) := piece_position in
  flat_map (fun '(dr, dc) =>
              let new_row := row + dr in
              let new_col := col + dc in
              if is_valid_position new_row new_col then
                let target_piece := board_get board (new_row, new_col) in
                if is_empty_square target_piece || is_enemy_piece self target_piece
                then [(new_row, new_col)] else []
              else [])
           offsets.

Definition knight_offsets : list (Z * Z) :=
  [(2, 1); (2, -1); (-2, 1); (-2, -1); (1, 2); (1, -2); (-1, 2); (-1, -2)].

Definition king_directions : list (Z * Z) :=
  [(1, 0); (0, 1); (0, -1); (-1, 0); (-1, -1); (1, -1); (-1, 1); (1, 1)].

(** The [while True] loop of the rook, the bishop and the queen, from
    [(current_row, current_col)] along [(dr, dc)].  [fuel] bounds the
    number of iterations; [ray_fuel] below shows that [BOARD_SIZE]
    iterations are all the loop can make. *)
Fixpoint ray (fuel : nat) (self : Piece) (board : Board) (dr dc : Z)
         (current_row current_col : Z) : list Square :=
  match fuel with
  | O => []
  | S fuel' =>
    let current_row := current_row + dr in
    let current_col := current_col + dc in
    if negb (is_valid_position current_row current_col) then []
    else
      let target_piece := board_get board (current_row, current_col) in
      if is_empty_square target_piece then
        (current_row, current_col)
          :: ray fuel' self board dr dc current_row current_col
      else if is_enemy_piece self target_piece then [(current_row, current_col)]
      else []
  end.

Definition line_moves (self : Piece) (piece_position : Square) (board : Board)
           (directions : list (Z * Z)) : list Square :=
  let '(row, col) := piece_position in
  flat_map (fun '(dr, dc) => ray (Z.to_nat BOARD_SIZE) self board dr dc row col)
           directions.

Definition rook_directions : list (Z * Z) := [(0, 1); (1, 0); (-1, 0); (0, -1)].

Definition diagonal_directions : list (Z * Z) :=
  [(1, 1); (-1, -1); (-1, 1); (1, -1)].

Definition all_directions : list (Z * Z) :=
  [(1, 0); (0, 1); (0, -1); (-1, 0); (-1, -1); (1, -1); (-1, 1); (1, 1)].

(** [piece.possible_moves(piece_position, board)], by the class of the
    piece. *)
Definition possible_moves (self : Piece) (piece_position : Square)
           (board : Board) : list Square :=
  match kind self with
  | Pawn => pawn_moves self piece_position board
  | Knight => step_moves self piece_position board knight_offsets
  | Rook => line_moves self piece_position board rook_directions
  | Bishop => line_moves self piece_position board diagonal_directions
  | Queen => line_moves self piece_position board all_directions
  | King => step_moves self piece_position board king_directions
  end.

End Pieces.

(** ** chess/game.py *)

(** The exceptions the modelled code can raise. *)
Inductive Exn := KeyError | AttributeError | NameError | ValueError.

Inductive GameState := ACTIVE | CHECK | CHECKMATE | STALEMATE | DRAW.

(** The dataclass [Move]. *)
Module Move.
Record t := mk {
  from_pos : Square;
  to_pos : Square;
  piece : Piece;
  captured_piece : option Piece;
  is_castling : bool;
  is_en_passant : bool;
  is_promotion : bool;
  promoted_to : option string
}.

Definition set_is_castling (m : t) (b : bool) : t :=
  mk (from_pos m) (to_pos m) (piece m) (captured_piece m) b
     (is_en_passant m) (is_promotion m) (promoted_to m).

Definition set_promotion (m : t) (b : bool) (k : option string) : t :=
  mk (from_pos m) (to_pos m) (piece m) (captured_piece m) (is_castling m)
     (is_en_passant m) b k.
End Move.

Module Game.

(** The attributes of a [Game] object; [has_moved] is the store of the
    [has_moved] flags of the piece objects. *)
Record t := mk {
  current_turn : Color;
  move_history : list Move.t;
  board : Board;
  game_state : GameState;
  white_king_pos : Square;
  black_king_pos : Square;
  castling_rights : gmap string bool;
  en_passant_target : option Square;
  halfmove_clock : Z;
  fullmove_number : Z;
  has_moved : gset nat
}.

Definition set_current_turn (g : t) (c : Color) : t :=
  mk c (move_history g) (board g) (game_state g) (white_king_pos g)
     (black_king_pos g) (castling_rights g) (en_passant_target g)
     (halfmove_clock g) (fullmove_number g) (has_moved g).

Definition set_move_history (g : t) (h : list Move.t) : t :=
  mk (current_turn g) h (board g) (game_state g) (white_king_pos g)
     (black_king_pos g) (castling_rights g) (en_passant_target g)
     (halfmove_clock g) (fullmove_number g) (has_moved g).

Definition set_board (g : t) (b : Board) : t :=
  mk (current_turn g) (move_history g) b (game_state g) (white_king_pos g)
     (black_king_pos g) (castling_rights g) (en_passant_target g)
     (halfmove_clock g) (fullmove_number g) (has_moved g).

Definition set_game_state (g : t) (s : GameState) : t :=
  mk (current_turn g) (move_history g) (board g) s (white_king_pos g)
     (black_king_pos g) (castling_rights g) (en_passant_target g)
     (halfmove_clock g) (fullmove_number g) (has_moved g).

Definition set_white_king_pos (g : t) (p : Square) : t :=
  mk (current_turn g) (move_history g) (board g) (game_state g) p
     (black_king_pos g) (castling_rights g) (en_passant_target g)
     (halfmove_clock g) (fullmove_number g) (has_moved g).

Definition set_black_king_pos (g : t) (p : Square) : t :=
  mk (current_turn g) (move_history g) (board g) (game_state g)
     (white_king_pos g) p (castling_rights g) (en_passant_target g)
     (halfmove_clock g) (fullmove_number g) (has_moved g).

Definition set_castling_rights (g : t) (r : gmap string bool) : t :=
  mk (current_turn g) (move_history g) (board g) (game_state g)
     (white_king_pos g) (black_king_pos g) r (en_passant_target g)
     (halfmove_clock g) (fullmove_number g) (has_moved g).

Definition set_halfmove_clock (g : t) (n : Z) : t :=
  mk (current_turn g) (move_history g) (board g) (game_state g)
     (white_king_pos g) (black_king_pos g) (castling_rights g)
     (en_passant_target g) n (fullmove_number g) (has_moved g).

Definition set_fullmove_number (g : t) (n : Z) : t :=
  mk (current_turn g) (move_history g) (board g) (game_state g)
     (white_king_pos g) (black_king_pos g) (castling_rights g)
     (en_passant_target g) (halfmove_clock g) n (has_moved g).

Definition set_has_moved (g : t) (s : gset nat) : t :=
  mk (current_turn g) (move_history g) (board g) (game_state g)
     (white_king_pos g) (black_king_pos g) (castling_rights g)
     (en_passant_target g) (halfmove_clock g) (fullmove_number g) s.

(** *** The state and exception monad of the methods *)

Inductive Outcome (A : Type) :=
| Return (a : A) (self : t)
| Raise (e : Exn) (self : t).
Arguments Return {A} a self.
Arguments Raise {A} e self.

Definition M (A : Type) : Type := t -> Outcome A.

Definition ret {A} (a : A) : M A := fun self => Return a self.

Definition bind {A B} (m : M A) (k : A -> M B) : M B :=
  fun self =>
    match m self with
    | Return a self' => k a self'
    | Raise e self' => Raise e self'
    end.

Definition raise {A} (e : Exn) : M A := fun self => Raise e self.

(** Calling a method that only reads [self]. *)
Definition call {A} (f : t -> A) : M A := fun self => Return (f self) self.

(** An assignment to attributes of [self]. *)
Definition assign (f : t -> t) : M unit := fun self => Return tt (f self).

(** Reading a value that is missing raises. *)
Definition expect {A} (e : Exn) (o : option A) : M A :=
  match o with
  | Some a => ret a
  | None => raise e
  end.

Notation "'let*' x ':=' m 'in' k" := (bind m (fun x => k))
  (at level 10, x name, m at level 99, k at level 200).
Notation "'run' m ';;' k" := (bind m (fun _ => k))
  (at level 10, m at level 99, k at level 200).

Definition opposite (c : Color) : Color :=
  match c with White => Black | Black => White end.

(** *** Setting up *)

Definition piece_order : list PieceKind :=
  [Rook; Knight; Bishop; Queen; King; Bishop; Knight; Rook].

Definition range (n : Z) : list Z := map Z.of_nat (seq 0 (Z.to_nat n)).

(** [create_board]: the objects are numbered in the order of their
    creation. *)
Definition create_board : Board :=
  flat_map
    (fun row =>
       map (fun col =>
              ((row, col),
               if row =? 0 then
                 Some (mkPiece (Z.to_nat col)
                               (nth (Z.to_nat col) piece_order Rook) Black)
               else if row =? 1 then
                 Some (mkPiece (Z.to_nat (8 + col)) Pawn Black)
               else if row =? 6 then
                 Some (mkPiece (Z.to_nat (16 + col)) Pawn White)
               else if row =? 7 then
                 Some (mkPiece (Z.to_nat (24 + col))
                               (nth (Z.to_nat col) piece_order Rook) White)
               else None))
           (range BOARD_SIZE))
    (range BOARD_SIZE).

Definition initial_castling_rights : gmap string bool :=
  <["black_queenside" := true]>
    (<["black_kingside" := true]>
       (<["white_queenside" := true]>
          (<["white_kingside" := true]> ∅))).

(** [Game()] *)
Definition init : t :=
  mk White [] create_board ACTIVE (7, 4) (0, 4) initial_castling_rights
     None 0 1 ∅.

(** [new_game]: every attribute is assigned afresh. *)
Definition new_game : M unit := assign (fun _ => init).

(** *** Reading the position *)

Definition is_valid_position (self : t) (row col : Z) : bool :=
  (0 <=? row) && (row <? BOARD_SIZE) && (0 <=? col) && (col <? BOARD_SIZE).

Definition get_piece (self : t) (position : Square) : option Piece :=
  board_get (board self) position.

Definition is_square_empty (self : t) (position : Square) : bool :=
  match get_piece self position with
  | None => true
  | Some _ => false
  end.

Definition is_enemy_piece (self : t) (position : Square) (color' : Color) : bool :=
  match get_piece self position with
  | Some piece => negb (color_eqb (color piece) color')
  | None => false
  end.

Definition is_own_piece (self : t) (position : Square) (color' : Color) : bool :=
  match get_piece self position with
  | Some piece => color_eqb (color piece) color'
  | None => false
  end.

Definition get_king_position (self : t) (color' : Color) : Square :=
  if color_eqb color' White then white_king_pos self else black_king_pos self.

Definition update_king_position (color' : Color) (new_position : Square) : M unit :=
  assign (fun self =>
            if color_eqb color' White then set_white_king_pos self new_position
            else set_black_king_pos self new_position).

(** The loop returns at the first attacker found: an [existsb] over the
    items of the board. *)
Definition is_square_under_attack (self : t) (position : Square)
           (by_color : Color) : bool :=
  existsb (fun '(board_pos, piece) =>
             match piece with
             | Some piece =>
               color_eqb (color piece) by_color
               && sq_in position (Pieces.possible_moves piece board_pos (board self))
             | None => false
             end)
          (board self).

Definition is_in_check (self : t) (color' : Color) : bool :=
  let king_pos := get_king_position self color' in
  let enemy_color := if color_eqb color' White then Black else White in
  is_square_under_attack self king_pos enemy_color.

Definition get_all_possible_moves (self : t) (color' : Color)
  : list (Square * Square) :=
  flat_map (fun '(position, piece) =>
              match piece with
              | Some piece =>
                if color_eqb (color piece) color' then
                  map (fun move => (position, move))
                      (Pieces.possible_moves piece position (board self))
                else []
              | None => []
              end)
           (board self).

(** [self.board[position]], which raises [KeyError] on a missing key. *)
Definition board_index (position : Square) : M (option Piece) :=
  fun self => expect KeyError (Dict.index (board self) position) self.

(** [self.board[position] = piece] *)
Definition board_assign (position : Square) (piece : option Piece) : M unit :=
  assign (fun self => set_board self (Dict.set (board self) position piece)).

(** [simulate_move]: the deep copy holds copies of the piece objects,
    equal to the originals in class and colour; the copy is only read
    by [is_in_check] and then dropped. *)
Definition simulate_move (from_pos to_pos : Square) : M Board :=
  let* simulated_board := call board in
  let* moved := expect KeyError (Dict.index simulated_board from_pos) in
  let simulated_board := Dict.set simulated_board to_pos moved in
  let simulated_board := Dict.set simulated_board from_pos None in
  ret simulated_board.

(** *** Legality *)

Definition is_legal_move (from_pos to_pos : Square) : M bool :=
  let* piece := call (fun self => get_piece self from_pos) in
  let* turn := call current_turn in
  match piece with
  | None => ret false
  | Some piece =>
    if negb (color_eqb (color piece) turn) then ret false
    else
      let* possible_moves :=
        call (fun self => Pieces.possible_moves piece from_pos (board self)) in
      if negb (sq_in to_pos possible_moves) then ret false
      else
        let* original_board := call board in
        let* simulated := simulate_move from_pos to_pos in
        run assign (fun self => set_board self simulated) ;;
        let* original_king_pos :=
          (if kind_eqb (kind piece) King then
             let* king_pos := call (fun self => get_king_position self (color piece)) in
             run update_king_position (color piece) to_pos ;;
             ret (Some king_pos)
           else ret None) in
        let* in_check := call (fun self => is_in_check self (color piece)) in
        run assign (fun self => set_board self original_board) ;;
        run (match original_king_pos with
             | Some king_pos => update_king_position (color piece) king_pos
             | None => ret tt
             end) ;;
        ret (negb in_check)
  end.

(** The loop [for x in l: if test(x): out.append(x)]. *)
Fixpoint filterM {A} (test : A -> M bool) (l : list A) : M (list A) :=
  match l with
  | [] => ret []
  | x :: r =>
    let* keep := test x in
    let* rest := filterM test r in
    ret (if keep then x :: rest else rest)
  end.

Definition get_legal_moves (color' : Color) : M (list (Square * Square)) :=
  let* all_moves := call (fun self => get_all_possible_moves self color') in
  filterM (fun '(from_pos, to_pos) => is_legal_move from_pos to_pos) all_moves.

Definition is_checkmate (color' : Color) : M bool :=
  let* in_check := call (fun self => is_in_check self color') in
  if negb in_check then ret false
  else
    let* legal_moves := get_legal_moves color' in
    ret (Nat.eqb (length legal_moves) 0).

Definition is_stalemate (color' : Color) : M bool :=
  let* in_check := call (fun self => is_in_check self color') in
  if in_check then ret false
  else
    let* legal_moves := get_legal_moves color' in
    ret (Nat.eqb (length legal_moves) 0).

Definition update_game_state : M unit :=
  let* turn := call current_turn in
  let* checkmate := is_checkmate turn in
  if checkmate then assign (fun self => set_game_state self CHECKMATE)
  else
    let* stalemate := is_stalemate turn in
    if stalemate then assign (fun self => set_game_state self STALEMATE)
    else
      let* in_check := call (fun self => is_in_check self turn) in
      if in_check then assign (fun self => set_game_state self CHECK)
      else
        let* clock := call halfmove_clock in
        if clock >=? 100 then assign (fun self => set_game_state self DRAW)
        else assign (fun self => set_game_state self ACTIVE).

(** *** Castling and promotion *)

(** [side] is the string of the source; any side but ['kingside'] is
    handled as the queenside, and a key that is not in
    [castling_rights] reads as [False]. *)
Definition can_castle (self : t) (color' : Color) (side : string) : bool :=
  if is_in_check self color' then false
  else
    let castling_key := color_name color' +:+ "_" +:+ side in
    if negb (default false (castling_rights self !! castling_key)) then false
    else
      let king_pos := get_king_position self color' in
      let row := fst king_pos in
      let enemy := if color_eqb color' White then Black else White in
      if String.eqb side "kingside" then
        forallb (fun col =>
                   is_square_empty self (row, col)
                   && negb (is_square_under_attack self (row, col) enemy))
                [5; 6]
      else
        forallb (fun col => is_square_empty self (row, col)) [1; 2; 3]
        && forallb (fun col => negb (is_square_under_attack self (row, col) enemy))
                   [2; 3].

Definition clear_castling_right (key : string) : M unit :=
  assign (fun self =>
            set_castling_rights self (<[key := false]> (castling_rights self))).

Definition execute_castling (color' : Color) (side : string) : M unit :=
  let row := if color_eqb color' Black then 0 else 7 in
  run (if String.eqb side "kingside" then
         let* king := board_index (row, 4) in
         run board_assign (row, 6) king ;;
         run board_assign (row, 4) None ;;
         run update_king_position color' (row, 6) ;;
         let* rook := board_index (row, 7) in
         run board_assign (row, 5) rook ;;
         board_assign (row, 7) None
       else
         let* king := board_index (row, 4) in
         run board_assign (row, 2) king ;;
         run board_assign (row, 4) None ;;
         run update_king_position color' (row, 2) ;;
         let* rook := board_index (row, 0) in
         run board_assign (row, 3) rook ;;
         board_assign (row, 0) None) ;;
  run clear_castling_right (color_name color' +:+ "_kingside") ;;
  clear_castling_right (color_name color' +:+ "_queenside").

Definition is_promotion (self : t) (from_pos to_pos : Square) : bool :=
  match get_piece self from_pos with
  | Some piece =>
    if kind_eqb (kind piece) Pawn then
      let target_row := if color_eqb (color piece) White then 0 else 7 in
      fst to_pos =? target_row
    else false
  | None => false
  end.

Section MakeMove.

(** [promote_pawn] calls [create_piece], which no module of the
    repository defines: [pieces.py] carries the factory as a
    commented-out block only.  It is a parameter here; it returns
    the new piece or the exception it raises. *)
Variable create_piece : string -> Color -> Exn + Piece.

Definition promote_pawn (position : Square) (piece_type : string) : M unit :=
  let* piece := call (fun self => get_piece self position) in
  match piece with
  | None => raise AttributeError
  | Some piece =>
    match create_piece piece_type (color piece) with
    | inl e => raise e
    | inr promoted => board_assign position (Some promoted)
    end
  end.

(** [make_move].  The result of [step] is the move object after the
    special-move handling, or [None] where the castling branch
    returns [False].  After [is_legal_move] has returned [True] there
    is a piece on [from_pos] ([legal_piece] below), so the branch for
    [piece is None] is never taken. *)
Definition make_move (from_pos to_pos : Square) (promotion_piece : string)
  : M bool :=
  let* legal := is_legal_move from_pos to_pos in
  if negb legal then ret false
  else
    let* piece := call (fun self => get_piece self from_pos) in
    let* captured_piece := call (fun self => get_piece self to_pos) in
    match piece with
    | None => raise AttributeError
    | Some piece =>
      let move :=
        Move.mk from_pos to_pos piece captured_piece false false false None in
      let* step :=
        (if kind_eqb (kind piece) King
            && (Z.abs (snd to_pos - snd from_pos) =? 2)
         then
           let side :=
             if snd to_pos >? snd from_pos then "kingside" else "queenside" in
           let* allowed := call (fun self => can_castle self (color piece) side) in
           if allowed then
             run execute_castling (color piece) side ;;
             ret (Some (Move.set_is_castling move true))
           else ret None
         else
           run board_assign to_pos (Some piece) ;;
           run board_assign from_pos None ;;
           run (if kind_eqb (kind piece) King
                then update_king_position (color piece) to_pos
                else ret tt) ;;
           ret (Some move)) in
      match step with
      | None => ret false
      | Some move =>
        let* promotion := call (fun self => is_promotion self from_pos to_pos) in
        let* move :=
          (if promotion then
             run promote_pawn to_pos promotion_piece ;;
             ret (Move.set_promotion move true (Some promotion_piece))
           else ret move) in
        run (if kind_eqb (kind piece) King then
               run clear_castling_right (color_name (color piece) +:+ "_kingside") ;;
               clear_castling_right (color_name (color piece) +:+ "_queenside")
             else if kind_eqb (kind piece) Rook then
               if sq_eqb from_pos (0, 0) then clear_castling_right "black_queenside"
               else if sq_eqb from_pos (0, 7) then clear_castling_right "black_kingside"
               else if sq_eqb from_pos (7, 0) then clear_castling_right "white_queenside"
               else if sq_eqb from_pos (7, 7) then clear_castling_right "white_kingside"
               else ret tt
             else ret tt) ;;
        run assign (fun self => set_has_moved self ({[pid piece]} ∪ has_moved self)) ;;
        run assign (fun self =>
                      if kind_eqb (kind piece) Pawn
                         || negb (Pieces.is_empty_square captured_piece)
                      then set_halfmove_clock self 0
                      else set_halfmove_clock self (halfmove_clock self + 1)) ;;
        run assign (fun self =>
                      if color_eqb (current_turn self) Black
                      then set_fullmove_number self (fullmove_number self + 1)
                      else self) ;;
        run assign (fun self => set_move_history self (move_history self ++ [move])) ;;
        run assign (fun self =>
                      set_current_turn self
                        (if color_eqb (current_turn self) White then Black else White)) ;;
        run update_game_state ;;
        ret true
      end
    end.

End MakeMove.

(** [list.pop()]: the last element and the rest, [None] on an empty list. *)
Definition pop {A} (l : list A) : option (A * list A) :=
  match rev l with
  | [] => None
  | x :: r => Some (x, rev r)
  end.

(** [undo_move].  [move.piece == last_move.piece] compares objects (no
    [__eq__] is defined on pieces): it is equality of identities. *)
Definition undo_move : M bool :=
  let* history := call move_history in
  match pop history with
  | None => ret false
  | Some (last_move, history) =>
    run assign (fun self => set_move_history self history) ;;
    run board_assign (Move.from_pos last_move) (Some (Move.piece last_move)) ;;
    run board_assign (Move.to_pos last_move) (Move.captured_piece last_move) ;;
    run (if Move.is_castling last_move then
           let row := fst (Move.from_pos last_move) in
           if snd (Move.to_pos last_move) =? 6 then
             let* rook := board_index (row, 5) in
             run board_assign (row, 7) rook ;;
             board_assign (row, 5) None
           else
             let* rook := board_index (row, 3) in
             run board_assign (row, 0) rook ;;
             board_assign (row, 3) None
         else ret tt) ;;
    run (if kind_eqb (kind (Move.piece last_move)) King
         then update_king_position (color (Move.piece last_move))
                                   (Move.from_pos last_move)
         else ret tt) ;;
    run assign (fun self =>
                  if Nat.eqb (length (move_history self)) 0
                     || negb (existsb (fun move =>
                                         Nat.eqb (pid (Move.piece move))
                                                 (pid (Move.piece last_move)))
                                      (move_history self))
                  then set_has_moved self (has_moved self ∖ {[pid (Move.piece last_move)]})
                  else self) ;;
    run assign (fun self =>
                  set_current_turn self
                    (if color_eqb (current_turn self) White then Black else White)) ;;
    run update_game_state ;;
    ret true
  end.

End Game.

(** ** engine/deepcore.py *)

Module DeepCore.

(** The values held by the configuration. *)
Inductive Value := Int (n : Z) | Bool (b : bool) | Str (s : string).

(** [DeepCore.__init__]: the [_config] dict. *)
Definition init (depth threads use_openbook time_limit dev_mode : Value)
  : gmap string Value :=
  <["dev_mode" := dev_mode]>
    (<["time_limit" := time_limit]>
       (<["use_openbook" := use_openbook]>
          (<["threads" := threads]>
             (<["depth" := depth]> ∅)))).

(** [DeepCore()] with the default arguments. *)
Definition default_config : gmap string Value :=
  init (Int 10) (Int 2) (Bool true) (Int 60) (Bool false).

(** What a call of [config] leaves: it returns [None] or raises
    [KeyError(key)]; either way [_config] is as the loop left it. *)
Inductive ConfigOutcome :=
| Configured (_config : gmap string Value)
| InvalidKey (key : string) (_config : gmap string Value).

(** [config]: [kwargs] are the keyword arguments in the order of the
    call. *)
Fixpoint config (_config : gmap string Value) (kwargs : list (string * Value))
  : ConfigOutcome :=
  match kwargs with
  | [] => Configured _config
  | (key, value) :: kwargs =>
    if bool_decide (is_Some (_config !! key))
    then config (<[key := value]> _config) kwargs
    else InvalidKey key _config
  end.

Definition stored (o : ConfigOutcome) : gmap string Value :=
  match o with
  | Configured c => c
  | InvalidKey _ c => c
  end.

(** [get_config] *)
Definition get_config (_config : gmap string Value) : gmap string Value :=
  _config.

End DeepCore.

(** ** Closed forms of the rules engine

    The functions of this section are not in the source: they say, without
    the monad, what the methods compute.  The lemmas [is_legal_move_eq],
    [get_legal_moves_eq], [update_game_state_eq] and [make_move_eq] prove
    that the methods compute them. *)

Module Closed.
Import Game.

Definition result {A} (o : Outcome A) : option A :=
  match o with
  | Return a _ => Some a
  | Raise _ _ => None
  end.

Definition state {A} (o : Outcome A) : Game.t :=
  match o with
  | Return _ self => self
  | Raise _ self => self
  end.

(** The state in which [is_legal_move] asks [is_in_check]: the piece is
    moved on the board, and the cached square of a moved king follows. *)
Definition hypothetical (g : Game.t) (piece : Piece) (from_pos to_pos : Square)
  : Game.t :=
  let g1 := set_board g (Dict.set (Dict.set (board g) to_pos (Some piece))
                                  from_pos None) in
  if kind_eqb (kind piece) King then
    if color_eqb (color piece) White then set_white_king_pos g1 to_pos
    else set_black_king_pos g1 to_pos
  else g1.

Definition legal (g : Game.t) (from_pos to_pos : Square) : bool :=
  match get_piece g from_pos with
  | None => false
  | Some piece =>
    color_eqb (color piece) (current_turn g)
    && sq_in to_pos (Pieces.possible_moves piece from_pos (board g))
    && negb (is_in_check (hypothetical g piece from_pos to_pos) (color piece))
  end.

Definition legal_moves (g : Game.t) (c : Color) : list (Square * Square) :=
  List.filter (fun '(from_pos, to_pos) => legal g from_pos to_pos)
              (get_all_possible_moves g c).

Definition checkmate (g : Game.t) (c : Color) : bool :=
  is_in_check g c && Nat.eqb (length (legal_moves g c)) 0.

Definition stalemate (g : Game.t) (c : Color) : bool :=
  negb (is_in_check g c) && Nat.eqb (length (legal_moves g c)) 0.

Definition classify (g : Game.t) : GameState :=
  if checkmate g (current_turn g) then CHECKMATE
  else if stalemate g (current_turn g) then STALEMATE
  else if is_in_check g (current_turn g) then CHECK
  else if halfmove_clock g >=? 100 then DRAW
  else ACTIVE.

Definition rights_after (rights : gmap string bool) (piece : Piece)
           (from_pos : Square) : gmap string bool :=
  if kind_eqb (kind piece) King then
    <[color_name (color piece) +:+ "_queenside" := false]>
      (<[color_name (color piece) +:+ "_kingside" := false]> rights)
  else if kind_eqb (kind piece) Rook then
    if sq_eqb from_pos (0, 0) then <["black_queenside" := false]> rights
    else if sq_eqb from_pos (0, 7) then <["black_kingside" := false]> rights
    else if sq_eqb from_pos (7, 0) then <["white_queenside" := false]> rights
    else if sq_eqb from_pos (7, 7) then <["white_kingside" := false]> rights
    else rights
  else rights.

(** The record [make_move] appends for a move it accepts. *)
Definition record (g : Game.t) (piece : Piece) (from_pos to_pos : Square)
  : Move.t :=
  Move.mk from_pos to_pos piece (get_piece g to_pos) false false false None.

(** The state a move accepted by [make_move] leaves, before the game
    state is recomputed. *)
Definition moved (g : Game.t) (piece : Piece) (from_pos to_pos : Square)
  : Game.t :=
  let is_king := kind_eqb (kind piece) King in
  Game.mk
    (opposite (current_turn g))
    (move_history g ++ [record g piece from_pos to_pos])
    (Dict.set (Dict.set (board g) to_pos (Some piece)) from_pos None)
    (game_state g)
    (if is_king && color_eqb (color piece) White
     then to_pos else white_king_pos g)
    (if is_king && negb (color_eqb (color piece) White)
     then to_pos else black_king_pos g)
    (rights_after (castling_rights g) piece from_pos)
    (en_passant_target g)
    (if kind_eqb (kind piece) Pawn
        || negb (Pieces.is_empty_square (get_piece g to_pos))
     then 0 else halfmove_clock g + 1)
    (if color_eqb (current_turn g) Black
     then fullmove_number g + 1 else fullmove_number g)
    ({[pid piece]} ∪ has_moved g).

Definition after_move (g : Game.t) (piece : Piece) (from_pos to_pos : Square)
  : Game.t :=
  let g' := moved g piece from_pos to_pos in
  set_game_state g' (classify g').

(** What [undo_move] does to the board and to a cached king square for
    a record that is not a castling. *)
Definition undone_board (m : Move.t) (b : Board) : Board :=
  Dict.set (Dict.set b (Move.from_pos m) (Some (Move.piece m)))
           (Move.to_pos m) (Move.captured_piece m).

Definition undone_king (c : Color) (m : Move.t) (cached : Square) : Square :=
  if kind_eqb (kind (Move.piece m)) King
     && color_eqb (color (Move.piece m)) c
  then Move.from_pos m else cached.

(** The state [undo_move] leaves when the latest record [m] is not a
    castling and [history] are the records before it, before the game
    state is recomputed. *)
Definition undone (g : Game.t) (m : Move.t) (history : list Move.t) : Game.t :=
  Game.mk
    (opposite (current_turn g))
    history
    (undone_board m (board g))
    (game_state g)
    (undone_king White m (white_king_pos g))
    (undone_king Black m (black_king_pos g))
    (castling_rights g)
    (en_passant_target g)
    (halfmove_clock g)
    (fullmove_number g)
    (if Nat.eqb (length history) 0
        || negb (existsb (fun move =>
                            Nat.eqb (pid (Move.piece move)) (pid (Move.piece m)))
                         history)
     then has_moved g ∖ {[pid (Move.piece m)]}
     else has_moved g).

Definition after_undo (g : Game.t) (m : Move.t) (history : list Move.t)
  : Game.t :=
  let g' := undone g m history in
  set_game_state g' (classify g').

(** A computation that leaves [castling_rights] as it is, whether it
    returns or raises. *)
Definition keeps_rights {A} (m : M A) : Prop :=
  forall g, castling_rights (state (m g)) = castling_rights g.

End Closed.

(** ** Reachable states and their invariant *)

Module Reach.
Import Game Closed.

Section Reachable.
Variable create_piece : string -> Color -> Exn + Piece.

(** The states a [Game] object goes through: it is created, and then
    [new_game], [make_move] and [undo_move] are called on it with any
    arguments.  The state a call leaves counts whether the call
    returned or raised. *)
Inductive Reachable : Game.t -> Prop :=
| reach_init : Reachable Game.init
| reach_new_game g : Reachable g -> Reachable (state (new_game g))
| reach_make_move g from_pos to_pos promotion_piece :
    Reachable g ->
    Reachable (state (make_move create_piece from_pos to_pos promotion_piece g))
| reach_undo_move g : Reachable g -> Reachable (state (undo_move g)).
End Reachable.

(** Two boards with the same piece on every square. *)
Definition same_squares (b1 b2 : Board) : Prop :=
  forall p, board_get b1 p = board_get b2 p.

(** Every king on the board stands on the cached square of its colour. *)
Definition kings_cached (b : Board) (wk bk : Square) : Prop :=
  forall p k, board_get b p = Some k -> kind k = King ->
              p = (if color_eqb (color k) White then wk else bk).

(** The history, latest record first, can be undone record by record,
    and every state on the way has its kings cached. *)
Fixpoint history_ok (ms : list Move.t) (b : Board) (wk bk : Square) : Prop :=
  match ms with
  | [] => True
  | m :: rest =>
    Move.is_castling m = false
    /\ kings_cached (undone_board m b) (undone_king White m wk)
                    (undone_king Black m bk)
    /\ history_ok rest (undone_board m b) (undone_king White m wk)
                  (undone_king Black m bk)
  end.

Definition Inv (g : Game.t) : Prop :=
  Dict.wf (board g)
  /\ kings_cached (board g) (white_king_pos g) (black_king_pos g)
  /\ history_ok (rev (move_history g)) (board g)
                (white_king_pos g) (black_king_pos g).

End Reach.

(** ** Positions used as examples *)

Module Positions.
Import Game Closed.

(** [create_piece] as the running code finds it: the name is not bound,
    the call raises [NameError]. *)
Definition create_piece (piece_type : string) (c : Color) : Exn + Piece :=
  inl NameError.

(** The state after the moves of [line] are passed to [make_move] in
    turn, from state [g]. *)
Definition play (line : list (Square * Square)) (g : Game.t) : Game.t :=
  fold_left (fun g '(from_pos, to_pos) =>
               state (make_move create_piece from_pos to_pos "queen" g))
            line g.

(** 1. e4 e5 2. Nf3 Nc6 3. Bc4 Bc5: white king and rook at home, f1 and
    g1 empty. *)
Definition italian : Game.t :=
  play [((6, 4), (4, 4)); ((1, 4), (3, 4)); ((7, 6), (5, 5));
        ((0, 1), (2, 2)); ((7, 5), (4, 2)); ((0, 5), (3, 2))] init.

(** 1. a4 b5 2. axb5 a6 3. bxa6 Bb7 4. axb7 h6: the white pawn on b7
    can take the rook on a8. *)
Definition pawn_on_seventh : Game.t :=
  play [((6, 0), (4, 0)); ((1, 1), (3, 1)); ((4, 0), (3, 1));
        ((1, 0), (2, 0)); ((3, 1), (2, 0)); ((0, 2), (1, 1));
        ((2, 0), (1, 1)); ((1, 7), (2, 7))] init.

(** 1. e4 e5 2. Ke2: the white king has moved. *)
Definition king_walk : Game.t :=
  play [((6, 4), (4, 4)); ((1, 4), (3, 4)); ((7, 4), (6, 4))] init.

(** Knights out and back: Nf3 Nf6 Ng1 Ng8. *)
Definition shuffle : list (Square * Square) :=
  [((7, 6), (5, 5)); ((0, 6), (2, 5)); ((5, 5), (7, 6)); ((2, 5), (0, 6))].

(** 24 shuffles, then Nf3 Nc6 Ne5: 99 half-moves without a pawn move or
    a capture. *)
Definition quiet_99 : Game.t :=
  play (concat (repeat shuffle 24)
        ++ [((7, 6), (5, 5)); ((0, 1), (2, 2)); ((5, 5), (3, 4))]) init.

(** ... Nb8 Nc4 Nc6: 102 such half-moves; the white knight on c4 can
    give check on d6. *)
Definition quiet_102 : Game.t :=
  play [((2, 2), (0, 1)); ((3, 4), (4, 2)); ((0, 1), (2, 2))] quiet_99.

End Positions.

(** ** Measures for the loops *)

(** A ray direction: a unit step along a rank, a file or a diagonal. *)
Definition direction (dr dc : Z) : Prop :=
  -1 <= dr <= 1 /\ -1 <= dc <= 1 /\ (dr <> 0 \/ dc <> 0).

(** A bound on the squares of the board that lie ahead of [(row, col)]
    along [(dr, dc)]. *)
Definition room (dr dc row col : Z) : Z :=
  if dr >? 0 then 7 - row
  else if dr <? 0 then row
  else if dc >? 0 then 7 - col
  else col.

(** ** Directions of the sliding pieces *)

(** The direction list of the class of a sliding piece. *)
Definition own_directions (k : PieceKind) : list (Z * Z) :=
  match k with
  | Rook => Pieces.rook_directions
  | Bishop => Pieces.diagonal_directions
  | _ => Pieces.all_directions
  end.

(** ** chess/interface.py: the move lists shown to the player *)

Module Interface.
Import Game.

(** [Chess._get_castling_moves], on the game of the widget. *)
Definition _get_castling_moves (color' : Color) : M (list Square) :=
  let castling_moves := [] in
  let row := if color_eqb color' Black then 0 else 7 in
  let* kingside := call (fun game => can_castle game color' "kingside") in
  let castling_moves :=
    if kingside then castling_moves ++ [(row, 6)] else castling_moves in
  let* queenside := call (fun game => can_castle game color' "queenside") in
  let castling_moves :=
    if queenside then castling_moves ++ [(row, 2)] else castling_moves in
  ret castling_moves.

(** [Chess._get_legal_moves_for_piece] *)
Definition _get_legal_moves_for_piece (position : Square) : M (list Square) :=
  let* piece := call (fun game => get_piece game position) in
  match piece with
  | None => ret []
  | Some piece =>
    let* possible_moves :=
      call (fun game => Pieces.possible_moves piece position (board game)) in
    let* legal_moves :=
      filterM (fun move => is_legal_move position move) possible_moves in
    if kind_eqb (kind piece) King then
      let* castling_moves := _get_castling_moves (color piece) in
      ret (legal_moves ++ castling_moves)
    else ret legal_moves
  end.

End Interface.

(** ** Further invariants of the reachable states *)

Module Reach2.
Import Game Closed.

(** A computation that leaves an attribute of the game as it is, whether
    it returns or raises. *)
Definition keeps {A F} (field : Game.t -> F) (m : M A) : Prop :=
  forall g, field (state (m g)) = field g.

(** The piece objects [create_board] makes. *)
Definition initial_pieces : list Piece :=
  flat_map (fun '(_, square) =>
              match square with
              | Some piece => [piece]
              | None => []
              end)
           create_board.

(** The identities of the pieces the records of a history have moved. *)
Definition moved_pids (history : list Move.t) : gset nat :=
  list_to_set (map (fun m => pid (Move.piece m)) history).

(** A record as [make_move] writes it for an ordinary move. *)
Definition plain (m : Move.t) : Prop :=
  Move.is_castling m = false /\ Move.is_en_passant m = false
  /\ Move.is_promotion m = false /\ Move.promoted_to m = None.

Definition Inv2 (g : Game.t) : Prop :=
  (forall p k, board_get (board g) p = Some k -> In k initial_pieces)
  /\ (forall m, In m (move_history g) ->
                plain m /\ In (Move.piece m) initial_pieces
                /\ forall k, Move.captured_piece m = Some k ->
                             In k initial_pieces)
  /\ en_passant_target g = None
  /\ has_moved g = moved_pids (move_history g).

End Reach2.

(** ** Further example positions *)

Module Positions2.
Import Game Closed Positions.

(** 1. e4 e5 *)
Definition open_game : Game.t :=
  play [((6, 4), (4, 4)); ((1, 4), (3, 4))] init.

End Positions2.

(** ** Kings and checks in the reachable states *)

Module Reach3.
Import Game Closed.

(** Some piece of colour [c] on board [b] has square [p] among its
    candidates. *)
Definition attacked (b : Board) (p : Square) (c : Color) : Prop :=
  exists q a,
    board_get b q = Some a /\ color a = c
    /\ In p (Pieces.possible_moves a q b).

Definition cached (wk bk : Square) (c : Color) : Square :=
  if color_eqb c White then wk else bk.

(** On each cached square stands a king of that colour, and the king of
    the side that is not to move is not attacked. *)
Definition sound (b : Board) (wk bk : Square) (turn : Color) : Prop :=
  (forall c, exists k,
        board_get b (cached wk bk c) = Some k /\ kind k = King /\ color k = c)
  /\ ~ attacked b (cached wk bk (opposite turn)) turn.

(** The same for every state the history leads back to. *)
Fixpoint history_sound (ms : list Move.t) (b : Board) (wk bk : Square)
         (turn : Color) : Prop :=
  match ms with
  | [] => True
  | m :: rest =>
    sound (undone_board m b) (undone_king White m wk) (undone_king Black m bk)
          (opposite turn)
    /\ history_sound rest (undone_board m b) (undone_king White m wk)
                     (undone_king Black m bk) (opposite turn)
  end.

Definition Inv3 (g : Game.t) : Prop :=
  sound (board g) (white_king_pos g) (black_king_pos g) (current_turn g)
  /\ history_sound (rev (move_history g)) (board g) (white_king_pos g)
                   (black_king_pos g) (current_turn g).

End Reach3.

(** * Properties *)

(** ** Squares and dictionaries *)

Lemma sq_eqb_eq (a b : Square) : sq_eqb a b = true <-> a = b.
Proof.
  destruct a as [r c], b as [r' c']. unfold sq_eqb. simpl.
  rewrite andb_true_iff, !Z.eqb_eq. split.
  - intros [-> ->]. reflexivity.
  - intros H. inversion H. auto.
Qed.

Lemma sq_eqb_refl (a : Square) : sq_eqb a a = true.
Proof. apply sq_eqb_eq. reflexivity. Qed.

Lemma sq_eqb_neq (a b : Square) : sq_eqb a b = false <-> a <> b.
Proof.
  rewrite <- sq_eqb_eq. destruct (sq_eqb a b); split; congruence.
Qed.

Lemma sq_eqb_sym (a b : Square) : sq_eqb a b = sq_eqb b a.
Proof.
  destruct (sq_eqb b a) eqn:E.
  - apply sq_eqb_eq in E. subst. apply sq_eqb_refl.
  - apply sq_eqb_neq in E. apply sq_eqb_neq. congruence.
Qed.

Lemma sq_in_In (p : Square) (l : list Square) : sq_in p l = true <-> In p l.
Proof.
  unfold sq_in. rewrite existsb_exists. split.
  - intros [x [Hx E]]. apply sq_eqb_eq in E. subst. exact Hx.
  - intros H. exists p. split; [exact H | apply sq_eqb_refl].
Qed.

Section DictFacts.
Context {V : Type}.
Implicit Types (d : Dict.t V) (k : Square) (v : V).

Lemma index_set d k v k' :
  Dict.index (Dict.set d k v) k'
  = if sq_eqb k' k then Some v else Dict.index d k'.
Proof.
  induction d as [|[k0 v0] r IH]; simpl.
  - destruct (sq_eqb k' k); reflexivity.
  - destruct (sq_eqb k k0) eqn:E; simpl.
    + apply sq_eqb_eq in E. subst k0.
      destruct (sq_eqb k' k); reflexivity.
    + destruct (sq_eqb k' k0) eqn:E'.
      * apply sq_eqb_eq in E'. subst k0.
        rewrite sq_eqb_sym, E. reflexivity.
      * exact IH.
Qed.

Lemma index_In d k v : Dict.index d k = Some v -> In (k, v) d.
Proof.
  induction d as [|[k0 v0] r IH]; simpl; [discriminate|].
  destruct (sq_eqb k k0) eqn:E.
  - apply sq_eqb_eq in E. subst. intros [= ->]. left. reflexivity.
  - intros H. right. auto.
Qed.

Lemma In_index d k v : Dict.wf d -> In (k, v) d -> Dict.index d k = Some v.
Proof.
  unfold Dict.wf, Dict.keys.
  induction d as [|[k0 v0] r IH]; simpl; [tauto|].
  intros Hwf [H|H].
  - inversion H. subst. rewrite sq_eqb_refl. reflexivity.
  - apply List.NoDup_cons_iff in Hwf. destruct Hwf as [Hnot Hwf].
    destruct (sq_eqb k k0) eqn:E.
    + apply sq_eqb_eq in E. subst k0. exfalso. apply Hnot.
      change k with (fst (k, v)). apply in_map. exact H.
    + auto.
Qed.

Lemma keys_set_in d k v k' :
  In k' (Dict.keys (Dict.set d k v)) -> k' = k \/ In k' (Dict.keys d).
Proof.
  unfold Dict.keys.
  induction d as [|[k0 v0] r IH]; simpl.
  - intros [H|[]]. left. congruence.
  - destruct (sq_eqb k k0) eqn:E; simpl.
    + apply sq_eqb_eq in E. subst k0. intros [H|H]; auto.
    + intros [H|H]; auto. destruct (IH H); auto.
Qed.

Lemma wf_set d k v : Dict.wf d -> Dict.wf (Dict.set d k v).
Proof.
  unfold Dict.wf.
  induction d as [|[k0 v0] r IH]; simpl.
  - intros _. constructor; [simpl; tauto | constructor].
  - intros Hwf. apply List.NoDup_cons_iff in Hwf. destruct Hwf as [Hnot Hwf].
    destruct (sq_eqb k k0) eqn:E; simpl.
    + apply sq_eqb_eq in E. subst k0. constructor; assumption.
    + constructor; [|auto].
      intros Hin. apply keys_set_in in Hin. destruct Hin as [->|Hin].
      * rewrite sq_eqb_refl in E. discriminate.
      * exact (Hnot Hin).
Qed.
End DictFacts.

Lemma board_get_set (b : Board) (k : Square) (v : option Piece) (p : Square) :
  board_get (Dict.set b k v) p = if sq_eqb p k then v else board_get b p.
Proof.
  unfold board_get. rewrite index_set. destruct (sq_eqb p k); reflexivity.
Qed.

Lemma board_get_index (b : Board) (p : Square) (x : Piece) :
  board_get b p = Some x <-> Dict.index b p = Some (Some x).
Proof.
  unfold board_get. destruct (Dict.index b p) as [[y|]|]; split; congruence.
Qed.

Lemma board_get_In (b : Board) (p : Square) (x : Piece) :
  Dict.wf b -> (board_get b p = Some x <-> In (p, Some x) b).
Proof.
  intros Hwf. rewrite board_get_index. split.
  - apply index_In.
  - apply In_index. exact Hwf.
Qed.


(** ** The geometry of the pieces *)

Section PiecesFacts.
Import Pieces.

Lemma valid_range (r c : Z) :
  is_valid_position r c = true <-> 0 <= r < 8 /\ 0 <= c < 8.
Proof. unfold is_valid_position, BOARD_SIZE. lia. Qed.

(** Fuel beyond the room ahead does not change what the loop collects. *)
Lemma ray_room self b dr dc :
  direction dr dc ->
  forall n m r c,
    room dr dc r c <= Z.of_nat n -> room dr dc r c <= Z.of_nat m ->
    ray n self b dr dc r c = ray m self b dr dc r c.
Proof.
  intros Hd. unfold direction in Hd.
  assert (Hstep : forall r c, is_valid_position (r + dr) (c + dc) = true ->
                   room dr dc (r + dr) (c + dc) = room dr dc r c - 1
                   /\ 0 <= room dr dc (r + dr) (c + dc) <= 7).
  { intros r c Hv. apply valid_range in Hv. unfold room.
    destruct (dr >? 0) eqn:E1; [lia|].
    destruct (dr <? 0) eqn:E2; [lia|].
    destruct (dc >? 0) eqn:E3; lia. }
  induction n as [|n IH]; intros [|m] r c Hn Hm; simpl; try reflexivity.
  - destruct (is_valid_position (r + dr) (c + dc)) eqn:Hv; [|reflexivity].
    destruct (Hstep _ _ Hv). lia.
  - destruct (is_valid_position (r + dr) (c + dc)) eqn:Hv; [|reflexivity].
    destruct (Hstep _ _ Hv). lia.
  - destruct (is_valid_position (r + dr) (c + dc)) eqn:Hv; [|reflexivity].
    simpl. destruct (Hstep _ _ Hv) as [Hr _].
    destruct (is_empty_square _); [|reflexivity].
    f_equal. apply IH; lia.
Qed.

Lemma ray_enough self b dr dc r c n m :
  direction dr dc -> (8 <= n)%nat -> (8 <= m)%nat ->
  ray n self b dr dc r c = ray m self b dr dc r c.
Proof.
  intros Hd Hn Hm.
  destruct n as [|n]; [lia|]. destruct m as [|m]; [lia|].
  simpl.
  destruct (is_valid_position (r + dr) (c + dc)) eqn:Hv; [|reflexivity].
  simpl. destruct (is_empty_square _); [|reflexivity].
  apply valid_range in Hv.
  assert (room dr dc (r + dr) (c + dc) <= 7).
  { unfold direction in Hd. unfold room.
    destruct (dr >? 0); [lia|]. destruct (dr <? 0); [lia|].
    destruct (dc >? 0); lia. }
  f_equal. apply ray_room; [exact Hd|lia|lia].
Qed.

(** The loop never makes more than [BOARD_SIZE] iterations: any fuel from
    [BOARD_SIZE] on gives the list the model uses. *)
Lemma ray_fuel self b dr dc r c n :
  direction dr dc -> (Z.to_nat BOARD_SIZE <= n)%nat ->
  ray n self b dr dc r c = ray (Z.to_nat BOARD_SIZE) self b dr dc r c.
Proof.
  unfold BOARD_SIZE. intros Hd Hn. apply ray_enough; [exact Hd|lia|lia].
Qed.

Lemma line_directions :
  Forall (fun d => direction (fst d) (snd d))
         (rook_directions ++ diagonal_directions ++ all_directions).
Proof.
  unfold rook_directions, diagonal_directions, all_directions. simpl.
  repeat (apply List.Forall_cons; [unfold direction; simpl; lia|]).
  apply List.Forall_nil.
Qed.

(** The squares of a ray are whole steps away from its origin. *)
Lemma ray_steps self b dr dc n :
  forall r c p, In p (ray n self b dr dc r c) ->
                exists k, 1 <= k /\ p = (r + k * dr, c + k * dc).
Proof.
  induction n as [|n IH]; intros r c p; simpl; [tauto|].
  destruct (is_valid_position _ _); simpl; [|tauto].
  destruct (is_empty_square _).
  - intros [<-|H].
    + exists 1. split; [lia|]. f_equal; lia.
    + apply IH in H. destruct H as [k [Hk ->]].
      exists (k + 1). split; [lia|]. f_equal; lia.
  - destruct (is_enemy_piece _ _); simpl; [|tauto].
    intros [<-|[]]. exists 1. split; [lia|]. f_equal; lia.
Qed.

Lemma line_moves_steps self b dirs r c p :
  In p (line_moves self (r, c) b dirs) ->
  exists dr dc k, In (dr, dc) dirs /\ 1 <= k /\ p = (r + k * dr, c + k * dc).
Proof.
  unfold line_moves. rewrite in_flat_map.
  intros [[dr dc] [Hin H]]. apply ray_steps in H.
  destruct H as [k [Hk ->]]. exists dr, dc, k. auto.
Qed.

Lemma step_moves_steps self b offs r c p :
  In p (step_moves self (r, c) b offs) ->
  exists dr dc, In (dr, dc) offs /\ p = (r + dr, c + dc).
Proof.
  unfold step_moves. rewrite in_flat_map.
  intros [[dr dc] [Hin H]].
  destruct (is_valid_position _ _); [|destruct H].
  destruct (_ || _); [|destruct H].
  destruct H as [<-|[]]. exists dr, dc. auto.
Qed.

Lemma pawn_moves_steps self b r c p :
  In p (pawn_moves self (r, c) b) ->
  exists dr dc, (dr = 1 \/ dr = -1 \/ dr = 2 \/ dr = -2) /\ p = (r + dr, c + dc).
Proof.
  unfold pawn_moves. rewrite in_app_iff.
  set (d := if color_eqb (color self) Black then 1 else -1).
  assert (Hd : d = 1 \/ d = -1) by (subst d; destruct (color_eqb _ _); auto).
  intros [H|H].
  - destruct (_ && _); [|destruct H].
    destruct H as [<-|H].
    + exists d, 0. split; [tauto|]. f_equal; lia.
    + destruct (r =? _); [|destruct H].
      destruct (_ && _); [|destruct H].
      destruct H as [<-|[]]. exists (2 * d), 0. split; [lia|]. f_equal; lia.
  - apply in_flat_map in H. destruct H as [off [_ H]].
    destruct (_ && _); [|destruct H].
    destruct H as [<-|[]]. exists d, off. split; [tauto|reflexivity].
Qed.

(** No piece can move to the square it stands on. *)
Lemma possible_moves_away self pos b p :
  In p (possible_moves self pos b) -> p <> pos.
Proof.
  destruct pos as [r c]. unfold possible_moves.
  assert (Hstep : forall offs,
             Forall (fun d => fst d <> 0 \/ snd d <> 0) offs ->
             In p (step_moves self (r, c) b offs) -> p <> (r, c)).
  { intros offs Hall H. apply step_moves_steps in H.
    destruct H as [dr [dc [Hin ->]]].
    rewrite List.Forall_forall in Hall. specialize (Hall _ Hin). simpl in Hall.
    intros [= H1 H2]. lia. }
  assert (Hline : forall dirs,
             Forall (fun d => fst d <> 0 \/ snd d <> 0) dirs ->
             In p (line_moves self (r, c) b dirs) -> p <> (r, c)).
  { intros dirs Hall H. apply line_moves_steps in H.
    destruct H as [dr [dc [k [Hin [Hk ->]]]]].
    rewrite List.Forall_forall in Hall. specialize (Hall _ Hin). simpl in Hall.
    intros [= H1 H2]. nia. }
  destruct (kind self).
  - intros H. apply pawn_moves_steps in H. destruct H as [dr [dc [Hd ->]]].
    intros [= H1 H2]. lia.
  - apply Hstep. repeat (apply List.Forall_cons; [simpl; lia|]); apply List.Forall_nil.
  - apply Hline. repeat (apply List.Forall_cons; [simpl; lia|]); apply List.Forall_nil.
  - apply Hline. repeat (apply List.Forall_cons; [simpl; lia|]); apply List.Forall_nil.
  - apply Hline. repeat (apply List.Forall_cons; [simpl; lia|]); apply List.Forall_nil.
  - apply Hstep. repeat (apply List.Forall_cons; [simpl; lia|]); apply List.Forall_nil.
Qed.

(** A king moves to a neighbouring file at most: no candidate of a king
    is two files away. *)
Lemma king_moves_near self pos b p :
  kind self = King -> In p (possible_moves self pos b) ->
  Z.abs (snd p - snd pos) <= 1.
Proof.
  destruct pos as [r c]. unfold possible_moves. intros ->.
  intros H. apply step_moves_steps in H. destruct H as [dr [dc [Hin ->]]].
  simpl in Hin. simpl.
  repeat (destruct Hin as [[= <- <-]|Hin]; [lia|]). destruct Hin.
Qed.

End PiecesFacts.

(** ** The methods and their closed forms *)

Section MethodFacts.
Import Game Closed.

Lemma bind_ret {A B} (a : A) (k : A -> M B) g : bind (ret a) k g = k a g.
Proof. reflexivity. Qed.

Lemma bind_call {A B} (f : Game.t -> A) (k : A -> M B) g :
  bind (call f) k g = k (f g) g.
Proof. reflexivity. Qed.

Lemma bind_assign {B} (f : Game.t -> Game.t) (k : unit -> M B) g :
  bind (assign f) k g = k tt (f g).
Proof. reflexivity. Qed.

Lemma bind_eq {A B} (m : M A) (k : A -> M B) g a g' :
  m g = Return a g' -> bind m k g = k a g'.
Proof. unfold bind. intros ->. reflexivity. Qed.

Lemma simulate_move_eq from_pos to_pos g v :
  Dict.index (board g) from_pos = Some v ->
  simulate_move from_pos to_pos g
  = Return (Dict.set (Dict.set (board g) to_pos v) from_pos None) g.
Proof.
  intros H. unfold simulate_move. rewrite bind_call.
  unfold bind, expect. rewrite H. reflexivity.
Qed.

(** [is_legal_move] returns, never raises, and leaves [self] as it found
    it. *)
Lemma is_legal_move_eq from_pos to_pos g :
  is_legal_move from_pos to_pos g = Return (legal g from_pos to_pos) g.
Proof.
  unfold is_legal_move, legal. rewrite !bind_call.
  destruct (get_piece g from_pos) as [piece|] eqn:Hp; [|reflexivity].
  destruct (color_eqb (color piece) (current_turn g)); [|reflexivity].
  cbn [negb andb]. rewrite bind_call.
  destruct (sq_in to_pos _); [|reflexivity].
  cbn [negb andb]. rewrite bind_call.
  unfold get_piece in Hp. apply board_get_index in Hp.
  rewrite (bind_eq _ _ _ _ _ (simulate_move_eq from_pos to_pos g _ Hp)).
  rewrite bind_assign.
  unfold hypothetical, update_king_position.
  destruct (kind_eqb (kind piece) King);
    destruct (color_eqb (color piece) White) eqn:Hc;
    destruct g; unfold bind, call, assign, ret, get_king_position; simpl;
    rewrite ?Hc; reflexivity.
Qed.

Lemma filterM_eq {A} (test : A -> M bool) (f : A -> bool) g :
  (forall x, test x g = Return (f x) g) ->
  forall l, filterM test l g = Return (List.filter f l) g.
Proof.
  intros H. induction l as [|x r IH]; simpl; [reflexivity|].
  rewrite (bind_eq _ _ _ _ _ (H x)), (bind_eq _ _ _ _ _ IH).
  reflexivity.
Qed.

Lemma get_legal_moves_eq c g :
  get_legal_moves c g = Return (legal_moves g c) g.
Proof.
  unfold get_legal_moves, legal_moves. rewrite bind_call.
  apply filterM_eq. intros [from_pos to_pos]. apply is_legal_move_eq.
Qed.

Lemma is_checkmate_eq c g : is_checkmate c g = Return (checkmate g c) g.
Proof.
  unfold is_checkmate, checkmate. rewrite bind_call.
  destruct (is_in_check g c); [|reflexivity].
  cbn [negb]. rewrite (bind_eq _ _ _ _ _ (get_legal_moves_eq c g)).
  reflexivity.
Qed.

Lemma is_stalemate_eq c g : is_stalemate c g = Return (stalemate g c) g.
Proof.
  unfold is_stalemate, stalemate. rewrite bind_call.
  destruct (is_in_check g c); [reflexivity|].
  cbn [negb]. rewrite (bind_eq _ _ _ _ _ (get_legal_moves_eq c g)).
  reflexivity.
Qed.

Lemma update_game_state_eq g :
  update_game_state g = Return tt (set_game_state g (classify g)).
Proof.
  unfold update_game_state, classify. rewrite bind_call.
  rewrite (bind_eq _ _ _ _ _ (is_checkmate_eq _ g)).
  destruct (checkmate g (current_turn g)); [reflexivity|].
  rewrite (bind_eq _ _ _ _ _ (is_stalemate_eq _ g)).
  destruct (stalemate g (current_turn g)); [reflexivity|].
  rewrite bind_call.
  destruct (is_in_check g (current_turn g)); [reflexivity|].
  rewrite bind_call.
  destruct (halfmove_clock g >=? 100); reflexivity.
Qed.

End MethodFacts.

(** ** [make_move] in closed form *)

Section MakeMoveFacts.
Import Game Closed.
Variable create_piece : string -> Color -> Exn + Piece.

Lemma kind_eqb_eq a b : kind_eqb a b = true <-> a = b.
Proof. destruct a, b; simpl; split; congruence. Qed.

Lemma color_eqb_eq a b : color_eqb a b = true <-> a = b.
Proof. destruct a, b; simpl; split; congruence. Qed.

Lemma legal_inv g from_pos to_pos :
  legal g from_pos to_pos = true ->
  exists piece,
    get_piece g from_pos = Some piece
    /\ color piece = current_turn g
    /\ In to_pos (Pieces.possible_moves piece from_pos (board g))
    /\ is_in_check (hypothetical g piece from_pos to_pos) (color piece) = false.
Proof.
  unfold legal. destruct (get_piece g from_pos) as [piece|]; [|discriminate].
  rewrite !andb_true_iff, negb_true_iff, color_eqb_eq, sq_in_In.
  intros [[H1 H2] H3]. exists piece. auto.
Qed.

(** The ordinary relocation of [make_move] leaves the state in which
    [is_legal_move] has looked for a check. *)
Lemma regular_step_eq g piece from_pos to_pos (move : Move.t) :
  (run board_assign to_pos (Some piece) ;;
   run board_assign from_pos None ;;
   run (if kind_eqb (kind piece) King
        then update_king_position (color piece) to_pos
        else ret tt) ;;
   ret (Some move)) g
  = Return (Some move) (hypothetical g piece from_pos to_pos).
Proof.
  unfold hypothetical, update_king_position, board_assign, bind, assign, ret.
  destruct (kind_eqb (kind piece) King);
    destruct (color_eqb (color piece) White); reflexivity.
Qed.

Lemma hypothetical_board g piece from_pos to_pos :
  board (hypothetical g piece from_pos to_pos)
  = Dict.set (Dict.set (board g) to_pos (Some piece)) from_pos None.
Proof.
  unfold hypothetical.
  destruct (kind_eqb (kind piece) King);
    destruct (color_eqb (color piece) White); reflexivity.
Qed.

(** Once the piece has left [from_pos], [is_promotion] finds no pawn
    there. *)
Lemma no_promotion_after g piece from_pos to_pos :
  is_promotion (hypothetical g piece from_pos to_pos) from_pos to_pos = false.
Proof.
  unfold is_promotion, get_piece. rewrite hypothetical_board.
  rewrite board_get_set, sq_eqb_refl. reflexivity.
Qed.

Lemma rights_step_eq g piece from_pos :
  (if kind_eqb (kind piece) King then
     run clear_castling_right (color_name (color piece) +:+ "_kingside") ;;
     clear_castling_right (color_name (color piece) +:+ "_queenside")
   else if kind_eqb (kind piece) Rook then
     if sq_eqb from_pos (0, 0) then clear_castling_right "black_queenside"
     else if sq_eqb from_pos (0, 7) then clear_castling_right "black_kingside"
     else if sq_eqb from_pos (7, 0) then clear_castling_right "white_queenside"
     else if sq_eqb from_pos (7, 7) then clear_castling_right "white_kingside"
     else ret tt
   else ret tt) g
  = Return tt (set_castling_rights g (rights_after (castling_rights g) piece from_pos)).
Proof.
  unfold rights_after, clear_castling_right, bind, assign, ret.
  destruct (kind_eqb (kind piece) King); [reflexivity|].
  destruct (kind_eqb (kind piece) Rook); [|destruct g; reflexivity].
  repeat (destruct (sq_eqb from_pos _); [reflexivity|]).
  destruct g; reflexivity.
Qed.

(** A move that is not legal is refused and nothing is assigned. *)
Lemma make_move_refused from_pos to_pos promotion_piece g :
  legal g from_pos to_pos = false ->
  make_move create_piece from_pos to_pos promotion_piece g = Return false g.
Proof.
  intros Hl. unfold make_move.
  rewrite (bind_eq _ _ _ _ _ (is_legal_move_eq from_pos to_pos g)).
  rewrite Hl. reflexivity.
Qed.

(** A legal move is made: neither the castling branch nor the promotion
    is ever entered. *)
Lemma make_move_eq from_pos to_pos promotion_piece g piece :
  legal g from_pos to_pos = true ->
  get_piece g from_pos = Some piece ->
  make_move create_piece from_pos to_pos promotion_piece g
  = Return true (after_move g piece from_pos to_pos).
Proof.
  intros Hl Hp. unfold make_move.
  rewrite (bind_eq _ _ _ _ _ (is_legal_move_eq from_pos to_pos g)).
  rewrite Hl. cbn [negb]. rewrite !bind_call, Hp.
  destruct (legal_inv _ _ _ Hl) as [piece' [Hp' [Hc [Hin Hck]]]].
  rewrite Hp in Hp'. injection Hp' as <-.
  assert (Hnc : kind_eqb (kind piece) King
                && (Z.abs (snd to_pos - snd from_pos) =? 2) = false).
  { destruct (kind_eqb (kind piece) King) eqn:Hk; [|reflexivity].
    apply kind_eqb_eq in Hk. simpl.
    pose proof (king_moves_near _ _ _ _ Hk Hin). lia. }
  rewrite Hnc.
  rewrite (bind_eq _ _ _ _ _ (regular_step_eq g piece from_pos to_pos _)).
  rewrite bind_call, no_promotion_after, bind_ret.
  rewrite (bind_eq _ _ _ _ _ (rights_step_eq _ piece from_pos)).
  rewrite !bind_assign.
  rewrite (bind_eq _ _ _ _ _ (update_game_state_eq _)).
  unfold ret, after_move.
  match goal with
  | |- Return true (set_game_state ?a _) = Return true (set_game_state ?b _) =>
    replace a with b; [reflexivity|]
  end.
  unfold moved, record, hypothetical, opposite.
  destruct g as [turn hist b st wk bk cr ep hc fm hm]. simpl in *.
  destruct (kind_eqb (kind piece) King);
    destruct (color_eqb (color piece) White);
    destruct (kind_eqb (kind piece) Pawn || _); simpl;
    destruct turn; reflexivity.
Qed.

End MakeMoveFacts.

(** ** [undo_move] in closed form *)

Section UndoFacts.
Import Game Closed.

Lemma pop_app {A} (l : list A) (x : A) : pop (l ++ [x]) = Some (x, l).
Proof.
  unfold pop. rewrite rev_app_distr. simpl. rewrite rev_involutive.
  reflexivity.
Qed.

Lemma pop_inv {A} (l r : list A) (x : A) : pop l = Some (x, r) -> l = r ++ [x].
Proof.
  unfold pop. destruct (rev l) as [|y q] eqn:E; [discriminate|].
  intros [= -> <-]. rewrite <- (rev_involutive l), E. reflexivity.
Qed.

Lemma pop_none {A} (l : list A) : pop l = None -> l = [].
Proof.
  unfold pop. destruct (rev l) as [|y q] eqn:E; [|discriminate].
  intros _. rewrite <- (rev_involutive l), E. reflexivity.
Qed.

Lemma undo_move_empty g : move_history g = [] -> undo_move g = Return false g.
Proof.
  intros H. unfold undo_move. rewrite bind_call, H. reflexivity.
Qed.

Lemma undo_move_eq g m history :
  pop (move_history g) = Some (m, history) ->
  Move.is_castling m = false ->
  undo_move g = Return true (after_undo g m history).
Proof.
  intros Hpop Hc. unfold undo_move. rewrite bind_call, Hpop.
  unfold board_assign. rewrite !bind_assign, Hc, bind_ret.
  assert (Hk : forall (k : unit -> M bool) g0,
             bind (if kind_eqb (kind (Move.piece m)) King
                   then update_king_position (color (Move.piece m))
                                             (Move.from_pos m)
                   else ret tt) k g0
             = k tt (if kind_eqb (kind (Move.piece m)) King
                     then if color_eqb (color (Move.piece m)) White
                          then set_white_king_pos g0 (Move.from_pos m)
                          else set_black_king_pos g0 (Move.from_pos m)
                     else g0)).
  { intros k g0. unfold update_king_position.
    destruct (kind_eqb _ _); reflexivity. }
  rewrite Hk, !bind_assign.
  rewrite (bind_eq _ _ _ _ _ (update_game_state_eq _)).
  unfold ret, after_undo.
  match goal with
  | |- Return true (set_game_state ?a _) = Return true (set_game_state ?b _) =>
    replace a with b; [reflexivity|]
  end.
  unfold undone, undone_board, undone_king, opposite.
  destruct g as [turn hist b st wk bk cr ep hc fm hm]. simpl.
  destruct (kind_eqb (kind (Move.piece m)) King);
    destruct (color_eqb (color (Move.piece m)) White) eqn:Hw;
    destruct (color (Move.piece m)); try discriminate Hw; simpl;
    destruct (_ || _); destruct turn; reflexivity.
Qed.

End UndoFacts.

(** ** Legality checks leave the game untouched *)

Section Frame.
Import Game Closed.

(** C8: for every game state and every pair of squares, [is_legal_move]
    returns and hands the state back exactly as it received it -- board,
    both cached king squares, turn, counters, castling rights and history
    -- although it assigns a hypothetical board and king square on the
    way; the same holds for [get_legal_moves], which calls it for every
    candidate. *)
Theorem is_legal_move_restores (g : Game.t) (from_pos to_pos : Square) :
  (exists b, is_legal_move from_pos to_pos g = Return b g)
  /\ (forall c, exists moves, get_legal_moves c g = Return moves g).
Proof.
  split.
  - exists (legal g from_pos to_pos). apply is_legal_move_eq.
  - intros c. exists (legal_moves g c). apply get_legal_moves_eq.
Qed.

Lemma filter_nil {A} (f : A -> bool) (l : list A) :
  (forall x, In x l -> f x = false) -> List.filter f l = [].
Proof.
  induction l as [|x r IH]; simpl; intros H; [reflexivity|].
  rewrite (H x) by auto. apply IH. intros y Hy. apply H. auto.
Qed.

(** C10: for every game state (whose board is a dict: its keys are
    unique) and every colour that is not the side to move,
    [get_legal_moves] returns the empty list: [is_legal_move] turns down
    every piece of that colour. *)
Theorem get_legal_moves_other_side (g : Game.t) (c : Color) :
  Dict.wf (board g) -> c <> current_turn g ->
  get_legal_moves c g = Return [] g.
Proof.
  intros Hwf Hc. rewrite get_legal_moves_eq. f_equal.
  unfold legal_moves. apply filter_nil.
  intros [from_pos to_pos] Hin.
  unfold get_all_possible_moves in Hin. apply in_flat_map in Hin.
  destruct Hin as [[pos [piece|]] [Hitem Hmv]]; [|destruct Hmv].
  destruct (color_eqb (color piece) c) eqn:Hpc; [|destruct Hmv].
  apply in_map_iff in Hmv. destruct Hmv as [mv [[= <- <-] _]].
  apply color_eqb_eq in Hpc.
  unfold legal, get_piece.
  apply (board_get_In _ _ _ Hwf) in Hitem. rewrite Hitem.
  destruct (color_eqb (color piece) (current_turn g)) eqn:Ht; [|reflexivity].
  apply color_eqb_eq in Ht. congruence.
Qed.

End Frame.

Lemma wfb_wf {V} (d : Dict.t V) : Dict.wfb d = true -> Dict.wf d.
Proof.
  unfold Dict.wfb, Dict.wf. generalize (Dict.keys d). intros l.
  induction l as [|x r IH]; simpl; intros H; [constructor|].
  apply andb_true_iff in H. destruct H as [H1 H2].
  constructor; [|auto].
  intros Hin. apply sq_in_In in Hin. rewrite Hin in H1. discriminate.
Qed.

Lemma get_legal_moves_other_side_witness :
  Dict.wf (Game.board Game.init)
  /\ Black <> Game.current_turn Game.init
  /\ Game.get_legal_moves Black Game.init = Game.Return [] Game.init.
Proof.
  assert (Hwf : Dict.wf (Game.board Game.init))
    by (apply wfb_wf; vm_compute; reflexivity).
  assert (Hc : Black <> Game.current_turn Game.init) by (simpl; discriminate).
  split; [exact Hwf|]. split; [exact Hc|].
  exact (get_legal_moves_other_side Game.init Black Hwf Hc).
Defined.

(** ** Refused moves *)

Section Refusal.
Import Game Closed.
Variable create_piece : string -> Color -> Exn + Piece.

(** C2: for every game state, a request with no piece on the source
    square, with a piece of the side not to move, with a destination
    outside the candidates of the piece, or that leaves the mover's king
    in check makes [make_move] return [False] with the state -- board,
    turn, castling rights, counters, cached king squares, history --
    exactly as before. *)
Theorem make_move_illegal_unchanged
        (g : Game.t) (from_pos to_pos : Square) (promotion_piece : string) :
  get_piece g from_pos = None
  \/ (exists piece, get_piece g from_pos = Some piece
                    /\ color piece <> current_turn g)
  \/ (exists piece, get_piece g from_pos = Some piece
                    /\ ~ In to_pos (Pieces.possible_moves piece from_pos (board g)))
  \/ (exists piece, get_piece g from_pos = Some piece
                    /\ is_in_check (hypothetical g piece from_pos to_pos)
                                   (color piece) = true) ->
  make_move create_piece from_pos to_pos promotion_piece g = Return false g.
Proof.
  intros H. apply make_move_refused. unfold legal.
  destruct H as [H|[[piece [H Hc]]|[[piece [H Hm]]|[piece [H Hk]]]]];
    rewrite H; [reflexivity| | |].
  - destruct (color_eqb (color piece) (current_turn g)) eqn:E; [|reflexivity].
    apply color_eqb_eq in E. contradiction.
  - destruct (sq_in to_pos _) eqn:E.
    + apply sq_in_In in E. contradiction.
    + rewrite andb_false_r. reflexivity.
  - rewrite Hk. rewrite andb_false_r. reflexivity.
Qed.

End Refusal.

Lemma make_move_illegal_unchanged_witness :
  Game.make_move Positions.create_piece (4, 4) (3, 4) "queen" Game.init
  = Game.Return false Game.init.
Proof.
  apply (make_move_illegal_unchanged Positions.create_piece Game.init
                                     (4, 4) (3, 4) "queen").
  left. vm_compute. reflexivity.
Defined.

(** ** Castling rights only ever go away *)

Section CastlingRights.
Import Game Closed.
Variable create_piece : string -> Color -> Exn + Piece.

Lemma rights_after_false (rights : gmap string bool) piece from_pos key :
  rights !! key = Some false ->
  rights_after rights piece from_pos !! key = Some false.
Proof.
  intros H. unfold rights_after.
  repeat match goal with
         | |- context [if ?c then _ else _] => destruct c
         end;
    rewrite ?lookup_insert; repeat case_decide; auto.
Qed.

Lemma keeps_ret {A} (a : A) : keeps_rights (ret a).
Proof. intros g. reflexivity. Qed.

Lemma keeps_raise {A} (e : Exn) : keeps_rights (@raise A e).
Proof. intros g. reflexivity. Qed.

Lemma keeps_call {A} (f : Game.t -> A) : keeps_rights (call f).
Proof. intros g. reflexivity. Qed.

Lemma keeps_assign (f : Game.t -> Game.t) :
  (forall g, castling_rights (f g) = castling_rights g) ->
  keeps_rights (assign f).
Proof. intros H g. apply H. Qed.

Lemma keeps_bind {A B} (m : M A) (k : A -> M B) :
  keeps_rights m -> (forall a, keeps_rights (k a)) -> keeps_rights (bind m k).
Proof.
  intros Hm Hk g. unfold bind. specialize (Hm g).
  destruct (m g) as [a g'|e g']; simpl in *.
  - rewrite Hk. exact Hm.
  - exact Hm.
Qed.

Lemma keeps_board_index position : keeps_rights (board_index position).
Proof.
  intros g. unfold board_index, expect.
  destruct (Dict.index _ _); reflexivity.
Qed.

Lemma keeps_update_game_state : keeps_rights update_game_state.
Proof. intros g. rewrite update_game_state_eq. reflexivity. Qed.

Ltac keeps :=
  repeat first
         [ apply keeps_ret | apply keeps_raise | apply keeps_call
         | apply keeps_board_index | apply keeps_update_game_state
         | apply keeps_bind; [|intros ?]
         | apply keeps_assign; intros ?; simpl;
           repeat match goal with
                  | |- context [if ?c then _ else _] => destruct c; simpl
                  end; reflexivity
         | match goal with
           | |- keeps_rights (if ?c then _ else _) => destruct c
           | |- keeps_rights (match ?c with _ => _ end) => destruct c
           end ].

(** [undo_move] never assigns to [castling_rights], whether it returns
    or raises. *)
Lemma undo_move_rights g :
  castling_rights (state (undo_move g)) = castling_rights g.
Proof.
  revert g. change (keeps_rights undo_move).
  unfold undo_move, board_assign, update_king_position. keeps.
Qed.

(** C7: for every game state and each castling-rights flag that is
    [False], the flag is [False] in the state any [make_move] call leaves
    and in the state [undo_move] leaves; only [new_game] sets a flag to
    [True] again. *)
Theorem castling_rights_monotone (g : Game.t) (key : string) :
  castling_rights g !! key = Some false ->
  (forall from_pos to_pos promotion_piece,
      castling_rights
        (state (make_move create_piece from_pos to_pos promotion_piece g))
        !! key = Some false)
  /\ castling_rights (state (undo_move g)) !! key = Some false.
Proof.
  intros H. split.
  - intros from_pos to_pos promotion_piece.
    destruct (legal g from_pos to_pos) eqn:Hl.
    + destruct (legal_inv _ _ _ Hl) as [piece [Hp _]].
      rewrite (make_move_eq create_piece _ _ promotion_piece _ _ Hl Hp).
      simpl. apply rights_after_false. exact H.
    + rewrite (make_move_refused create_piece _ _ promotion_piece _ Hl).
      exact H.
  - rewrite undo_move_rights. exact H.
Qed.

End CastlingRights.

Lemma castling_rights_monotone_witness :
  Game.castling_rights Positions.king_walk !! "white_kingside" = Some false
  /\ (forall from_pos to_pos promotion_piece,
         Game.castling_rights
           (Closed.state
              (Game.make_move Positions.create_piece from_pos to_pos
                              promotion_piece Positions.king_walk))
           !! "white_kingside" = Some false)
  /\ Game.castling_rights (Closed.state (Game.undo_move Positions.king_walk))
       !! "white_kingside" = Some false.
Proof.
  assert (H : Game.castling_rights Positions.king_walk !! "white_kingside"
              = Some false) by (vm_compute; reflexivity).
  split; [exact H|].
  exact (castling_rights_monotone Positions.create_piece Positions.king_walk
                                  "white_kingside" H).
Defined.

(** ** Castling and promotion requests *)

Section SpecialMoves.
Import Game Closed.
Variable create_piece : string -> Color -> Exn + Piece.

(** C3, where the code departs from the claim: in the position of the
    claim (white king on (7,4), white rook on (7,7), (7,5) and (7,6) empty
    and not attacked, white not in check, kingside right held) [can_castle]
    returns [True], but [make_move] from (7,4) to (7,6) returns [False] and
    changes nothing: the candidates of a king are its neighbouring squares
    only, so [is_legal_move] turns the two-file move down and the castling
    branch is not reached. *)
Theorem castling_request_refused
        (g : Game.t) (king rook : Piece) (promotion_piece : string) :
  get_piece g (7, 4) = Some king -> kind king = King -> color king = White ->
  get_piece g (7, 7) = Some rook -> kind rook = Rook -> color rook = White ->
  white_king_pos g = (7, 4) ->
  is_square_empty g (7, 5) = true -> is_square_empty g (7, 6) = true ->
  is_square_under_attack g (7, 5) Black = false ->
  is_square_under_attack g (7, 6) Black = false ->
  is_in_check g White = false ->
  castling_rights g !! "white_kingside" = Some true ->
  can_castle g White "kingside" = true
  /\ make_move create_piece (7, 4) (7, 6) promotion_piece g = Return false g.
Proof.
  intros Hk Hkk Hkc Hr Hrk Hrc Hpos He5 He6 Ha5 Ha6 Hck Hright. split.
  - unfold can_castle. rewrite Hck.
    change (color_name White +:+ "_" +:+ "kingside") with "white_kingside".
    rewrite Hright. unfold get_king_position. simpl. rewrite Hpos. simpl.
    rewrite He5, He6, Ha5, Ha6. reflexivity.
  - apply make_move_refused. unfold legal. rewrite Hk.
    destruct (sq_in (7, 6) _) eqn:E.
    + apply sq_in_In in E. pose proof (king_moves_near _ _ _ _ Hkk E) as H.
      simpl in H. lia.
    + rewrite andb_false_r. reflexivity.
Qed.

(** C4, where the code departs from the claim: for every game state and
    every legal move of a pawn onto the last rank, [make_move] returns
    [True] without raising, but the pawn itself stands on the destination
    square afterwards and the appended record has [is_promotion] false and
    no [promoted_to]: [is_promotion] is asked after the source square has
    been emptied, so [promote_pawn] is never called. *)
Theorem promotion_never_made
        (g : Game.t) (from_pos to_pos : Square) (promotion_piece : string)
        (pawn : Piece) :
  get_piece g from_pos = Some pawn -> kind pawn = Pawn ->
  fst to_pos = (if color_eqb (color pawn) White then 0 else 7) ->
  is_legal_move from_pos to_pos g = Return true g ->
  exists g',
    make_move create_piece from_pos to_pos promotion_piece g = Return true g'
    /\ get_piece g' to_pos = Some pawn
    /\ exists m, move_history g' = move_history g ++ [m]
                 /\ Move.is_promotion m = false
                 /\ Move.promoted_to m = None.
Proof.
  intros Hp Hk Hrow Hlegal.
  rewrite is_legal_move_eq in Hlegal. injection Hlegal as Hl.
  exists (after_move g pawn from_pos to_pos).
  split; [apply make_move_eq; assumption|].
  destruct (legal_inv _ _ _ Hl) as [piece [Hp' [_ [Hin _]]]].
  rewrite Hp in Hp'. injection Hp' as <-.
  split.
  - unfold get_piece. simpl. rewrite !board_get_set, sq_eqb_refl.
    apply possible_moves_away in Hin. apply sq_eqb_neq in Hin.
    rewrite Hin. reflexivity.
  - exists (record g pawn from_pos to_pos). simpl. auto.
Qed.

(** C5: for every game state and every move [make_move] accepts,
    [undo_move] right after it returns [True] and leaves the same piece on
    every square and the same side to move as before the move (and the
    same history). *)
Theorem make_move_undo_move
        (g g1 : Game.t) (from_pos to_pos : Square) (promotion_piece : string) :
  make_move create_piece from_pos to_pos promotion_piece g = Return true g1 ->
  exists g2,
    undo_move g1 = Return true g2
    /\ (forall p, get_piece g2 p = get_piece g p)
    /\ current_turn g2 = current_turn g
    /\ move_history g2 = move_history g.
Proof.
  intros Hmk.
  destruct (legal g from_pos to_pos) eqn:Hl.
  2:{ rewrite (make_move_refused create_piece _ _ promotion_piece _ Hl) in Hmk.
      discriminate. }
  destruct (legal_inv _ _ _ Hl) as [piece [Hp [_ [Hin _]]]].
  rewrite (make_move_eq create_piece _ _ promotion_piece _ _ Hl Hp) in Hmk.
  injection Hmk as <-.
  set (m := record g piece from_pos to_pos).
  exists (after_undo (after_move g piece from_pos to_pos) m (move_history g)).
  split.
  - apply undo_move_eq; [|reflexivity]. simpl. apply pop_app.
  - split; [|split].
    + intros p. unfold get_piece. simpl. unfold undone_board. simpl.
      rewrite !board_get_set.
      apply possible_moves_away in Hin.
      destruct (sq_eqb p to_pos) eqn:Ept.
      * apply sq_eqb_eq in Ept. subst p. reflexivity.
      * destruct (sq_eqb p from_pos) eqn:Epf; [|reflexivity].
        apply sq_eqb_eq in Epf. subst p. symmetry. exact Hp.
    + simpl. destruct (current_turn g); reflexivity.
    + reflexivity.
Qed.

End SpecialMoves.

Lemma castling_request_refused_witness :
  Game.can_castle Positions.italian White "kingside" = true
  /\ Game.make_move Positions.create_piece (7, 4) (7, 6) "queen"
                    Positions.italian
     = Game.Return false Positions.italian.
Proof.
  apply (castling_request_refused Positions.create_piece Positions.italian
           (mkPiece 28 King White) (mkPiece 31 Rook White) "queen");
    vm_compute; reflexivity.
Defined.

Lemma promotion_never_made_witness :
  exists g',
    Game.make_move Positions.create_piece (1, 1) (0, 0) "queen"
                   Positions.pawn_on_seventh = Game.Return true g'
    /\ Game.get_piece g' (0, 0) = Some (mkPiece 16 Pawn White)
    /\ exists m, Game.move_history g'
                 = Game.move_history Positions.pawn_on_seventh ++ [m]
                 /\ Move.is_promotion m = false
                 /\ Move.promoted_to m = None.
Proof.
  apply (promotion_never_made Positions.create_piece Positions.pawn_on_seventh
           (1, 1) (0, 0) "queen" (mkPiece 16 Pawn White));
    vm_compute; reflexivity.
Defined.

Lemma make_move_undo_move_witness :
  exists g2,
    Game.undo_move
      (Closed.state (Game.make_move Positions.create_piece (6, 4) (4, 4)
                                    "queen" Game.init))
    = Game.Return true g2
    /\ (forall p, Game.get_piece g2 p = Game.get_piece Game.init p)
    /\ Game.current_turn g2 = Game.current_turn Game.init
    /\ Game.move_history g2 = Game.move_history Game.init.
Proof.
  apply (make_move_undo_move Positions.create_piece Game.init _
                             (6, 4) (4, 4) "queen").
  vm_compute. reflexivity.
Defined.

(** ** The fifty-move rule *)

Section FiftyMoves.
Import Game Closed.
Variable create_piece : string -> Color -> Exn + Piece.

(** The stored [game_state] is not read by the rules. *)
Lemma legal_set_game_state g s from_pos to_pos :
  legal (set_game_state g s) from_pos to_pos = legal g from_pos to_pos.
Proof.
  unfold legal, get_piece. simpl.
  destruct (board_get (board g) from_pos) as [piece|]; [|reflexivity].
  f_equal. f_equal.
  unfold hypothetical, is_in_check, is_square_under_attack, get_king_position.
  destruct (kind_eqb (kind piece) King);
    destruct (color_eqb (color piece) White); reflexivity.
Qed.

Lemma legal_moves_set_game_state g s c :
  legal_moves (set_game_state g s) c = legal_moves g c.
Proof.
  unfold legal_moves.
  change (get_all_possible_moves (set_game_state g s) c)
    with (get_all_possible_moves g c).
  apply List.filter_ext. intros [from_pos to_pos].
  apply legal_set_game_state.
Qed.

Lemma checkmate_set_game_state g s c :
  checkmate (set_game_state g s) c = checkmate g c.
Proof.
  unfold checkmate. rewrite legal_moves_set_game_state. reflexivity.
Qed.

Lemma stalemate_set_game_state g s c :
  stalemate (set_game_state g s) c = stalemate g c.
Proof.
  unfold stalemate. rewrite legal_moves_set_game_state. reflexivity.
Qed.

(** C6, as amended: after every move [make_move] accepts, if the
    half-move clock is at least 100 and the side now to move is neither
    checkmated nor stalemated nor in check, the recomputed game state is
    [DRAW]. *)
Theorem fifty_move_draw
        (g g' : Game.t) (from_pos to_pos : Square) (promotion_piece : string) :
  make_move create_piece from_pos to_pos promotion_piece g = Return true g' ->
  100 <= halfmove_clock g' ->
  is_checkmate (current_turn g') g' = Return false g' ->
  is_stalemate (current_turn g') g' = Return false g' ->
  is_in_check g' (current_turn g') = false ->
  game_state g' = DRAW.
Proof.
  intros Hmk Hclock Hcm Hsm Hck.
  destruct (legal g from_pos to_pos) eqn:Hl.
  2:{ rewrite (make_move_refused create_piece _ _ promotion_piece _ Hl) in Hmk.
      discriminate. }
  destruct (legal_inv _ _ _ Hl) as [piece [Hp _]].
  rewrite (make_move_eq create_piece _ _ promotion_piece _ _ Hl Hp) in Hmk.
  injection Hmk as <-.
  rewrite is_checkmate_eq in Hcm. injection Hcm as Hcm.
  rewrite is_stalemate_eq in Hsm. injection Hsm as Hsm.
  unfold after_move in *.
  set (m := moved g piece from_pos to_pos) in *.
  rewrite checkmate_set_game_state in Hcm.
  rewrite stalemate_set_game_state in Hsm.
  change (checkmate m (current_turn m) = false) in Hcm.
  change (stalemate m (current_turn m) = false) in Hsm.
  change (is_in_check m (current_turn m) = false) in Hck.
  change (100 <= halfmove_clock m) in Hclock.
  change (classify m = DRAW).
  unfold classify. rewrite Hcm, Hsm, Hck.
  destruct (halfmove_clock m >=? 100) eqn:E; [reflexivity|lia].
Qed.

End FiftyMoves.

Lemma fifty_move_draw_witness :
  Game.game_state
    (Closed.state (Game.make_move Positions.create_piece (2, 2) (0, 1) "queen"
                                  Positions.quiet_99))
  = DRAW.
Proof.
  apply (fifty_move_draw Positions.create_piece Positions.quiet_99 _
                         (2, 2) (0, 1) "queen");
    vm_compute; first [reflexivity | discriminate].
Defined.

(** C6 as stated fails: after 102 quiet half-moves from the initial
    position the white knight gives check on d6; the clock is 103, black
    is neither checkmated nor stalemated, and the game state is [CHECK],
    not [DRAW]. *)
Lemma fifty_move_check_counterexample :
  let g' := Closed.state
              (Game.make_move Positions.create_piece (4, 2) (2, 3) "queen"
                              Positions.quiet_102) in
  Game.make_move Positions.create_piece (4, 2) (2, 3) "queen"
                 Positions.quiet_102 = Game.Return true g'
  /\ 100 <= Game.halfmove_clock g'
  /\ Game.is_checkmate (Game.current_turn g') g' = Game.Return false g'
  /\ Game.is_stalemate (Game.current_turn g') g' = Game.Return false g'
  /\ Game.game_state g' = CHECK
  /\ Game.game_state g' <> DRAW.
Proof.
  cbv zeta.
  split; [vm_compute; reflexivity|].
  split; [vm_compute; discriminate|].
  split; [vm_compute; reflexivity|].
  split; [vm_compute; reflexivity|].
  split; [vm_compute; reflexivity|].
  vm_compute; discriminate.
Qed.

(** ** The configuration of the engine *)

Section Config.
Import DeepCore.

(** C9, as amended: for every stored configuration and every call of
    [config] whose keyword arguments hold a key that is not in the
    configuration, the call raises [KeyError] for the first such key; the
    keys before it are all known, the arguments after it are not looked
    at.  The stored configuration is then the one before the call with
    the pairs supplied before that key assigned in order; in particular
    it is the one before the call when the unknown key comes first. *)
Theorem config_unknown_key
        (_config : gmap string Value) (kwargs : list (string * Value)) :
  (exists kv, In kv kwargs /\ _config !! fst kv = None) ->
  exists before key value after,
    kwargs = before ++ (key, value) :: after
    /\ (forall kv, In kv before -> is_Some (_config !! fst kv))
    /\ _config !! key = None
    /\ config _config kwargs
       = InvalidKey key
           (fold_left (fun c kv => <[fst kv := snd kv]> c) before _config)
    /\ (before = [] -> stored (config _config kwargs) = _config).
Proof.
  revert _config.
  induction kwargs as [|[k v] rest IH]; intros cfg [kv0 [Hin Hnone]].
  - destruct Hin.
  - destruct (cfg !! k) as [old|] eqn:Hk.
    + assert (Hrest : exists kv, In kv rest /\ <[k:=v]> cfg !! fst kv = None).
      { destruct Hin as [<-|Hin]; [simpl in Hnone; congruence|].
        exists kv0. split; [exact Hin|].
        rewrite lookup_insert_ne; [exact Hnone|]. congruence. }
      destruct (IH _ Hrest) as [before [key [value [after [E [Hb [Hn [Hc _]]]]]]]].
      exists ((k, v) :: before), key, value, after.
      split; [simpl; rewrite E; reflexivity|].
      split.
      { intros kv [<-|Hkv]; [simpl; rewrite Hk; eauto|].
        specialize (Hb kv Hkv).
        destruct (decide (k = fst kv)) as [<-|Hne]; [rewrite Hk; eauto|].
        rewrite lookup_insert_ne in Hb; assumption. }
      split.
      { destruct (decide (k = key)) as [<-|Hne].
        - rewrite lookup_insert_eq in Hn. discriminate.
        - rewrite lookup_insert_ne in Hn; assumption. }
      split; [|discriminate].
      simpl. rewrite bool_decide_eq_true_2; [exact Hc|]. rewrite Hk. eauto.
    + exists [], k, v, rest.
      split; [reflexivity|]. split; [intros kv []|]. split; [exact Hk|].
      assert (Hc : config cfg ((k, v) :: rest) = InvalidKey k cfg).
      { simpl. rewrite bool_decide_eq_false_2; [reflexivity|].
        rewrite Hk. intros [x Hx]. discriminate. }
      split; [exact Hc|]. intros _. rewrite Hc. reflexivity.
Qed.

End Config.

Lemma config_unknown_key_witness :
  exists before key value after,
    [("depth"%string, DeepCore.Int 12); ("bogus"%string, DeepCore.Int 1)]
    = before ++ (key, value) :: after
    /\ (forall kv, In kv before -> is_Some (DeepCore.default_config !! fst kv))
    /\ DeepCore.default_config !! key = None
    /\ DeepCore.config DeepCore.default_config
         [("depth"%string, DeepCore.Int 12); ("bogus"%string, DeepCore.Int 1)]
       = DeepCore.InvalidKey key
           (fold_left (fun c kv => <[fst kv := snd kv]> c) before
                      DeepCore.default_config)
    /\ (before = [] ->
        DeepCore.stored
          (DeepCore.config DeepCore.default_config
             [("depth"%string, DeepCore.Int 12); ("bogus"%string, DeepCore.Int 1)])
        = DeepCore.default_config).
Proof.
  apply (config_unknown_key DeepCore.default_config
           [("depth"%string, DeepCore.Int 12); ("bogus"%string, DeepCore.Int 1)]).
  exists ("bogus"%string, DeepCore.Int 1).
  split; [simpl; auto|]. vm_compute. reflexivity.
Defined.

(** C9 as stated fails: [config(depth=12, bogus=1)] on the default
    configuration raises [KeyError] for [bogus], but [depth] has been set
    to 12 by then: the stored configuration is not the one before the
    call. *)
Lemma config_not_preserved_counterexample :
  let kwargs := [("depth"%string, DeepCore.Int 12);
                 ("bogus"%string, DeepCore.Int 1)] in
  (exists kv, In kv kwargs /\ DeepCore.default_config !! fst kv = None)
  /\ DeepCore.config DeepCore.default_config kwargs
     = DeepCore.InvalidKey "bogus"
         (<["depth"%string := DeepCore.Int 12]> DeepCore.default_config)
  /\ DeepCore.stored (DeepCore.config DeepCore.default_config kwargs)
     <> DeepCore.default_config.
Proof.
  cbv zeta.
  assert (Hc : DeepCore.config DeepCore.default_config
                 [("depth"%string, DeepCore.Int 12);
                  ("bogus"%string, DeepCore.Int 1)]
               = DeepCore.InvalidKey "bogus"
                   (<["depth"%string := DeepCore.Int 12]> DeepCore.default_config))
    by (vm_compute; reflexivity).
  split.
  { exists ("bogus"%string, DeepCore.Int 1).
    split; [simpl; auto|]. vm_compute. reflexivity. }
  split; [exact Hc|].
  rewrite Hc. simpl. intros H.
  assert (Hd : (<["depth"%string := DeepCore.Int 12]> DeepCore.default_config)
                 !! "depth"%string
               = DeepCore.default_config !! "depth"%string) by (rewrite H; reflexivity).
  rewrite lookup_insert_eq in Hd. vm_compute in Hd. discriminate.
Qed.

(** ** The invariant of the reachable states *)

Section Invariant.
Import Game Closed Reach.
Variable create_piece : string -> Color -> Exn + Piece.

Lemma kings_cached_same b1 b2 wk bk :
  same_squares b1 b2 -> kings_cached b1 wk bk -> kings_cached b2 wk bk.
Proof.
  intros Hs Hk p k Hp. apply Hk. rewrite Hs. exact Hp.
Qed.

Lemma undone_board_same m b1 b2 :
  same_squares b1 b2 -> same_squares (undone_board m b1) (undone_board m b2).
Proof.
  intros Hs p. unfold undone_board. rewrite !board_get_set, Hs. reflexivity.
Qed.

Lemma history_ok_same ms :
  forall b1 b2 wk bk,
    same_squares b1 b2 -> history_ok ms b1 wk bk -> history_ok ms b2 wk bk.
Proof.
  induction ms as [|m rest IH]; intros b1 b2 wk bk Hs; simpl; [tauto|].
  intros [Hc [Hk Hr]]. split; [exact Hc|].
  pose proof (undone_board_same m _ _ Hs) as Hs'.
  split.
  - exact (kings_cached_same _ _ _ _ Hs' Hk).
  - exact (IH _ _ _ _ Hs' Hr).
Qed.

Lemma init_kings_cached : kings_cached create_board (7, 4) (0, 4).
Proof.
  intros p k Hp Hk. apply board_get_index in Hp. apply index_In in Hp.
  vm_compute in Hp.
  repeat (destruct Hp as [Hp|Hp];
          [first [ discriminate Hp
                 | injection Hp as <- <-;
                   first [discriminate Hk | reflexivity] ]|]).
  destruct Hp.
Qed.

Lemma Inv_init : Inv Game.init.
Proof.
  split; [apply wfb_wf; vm_compute; reflexivity|].
  split; [exact init_kings_cached|exact I].
Qed.

(** Undoing the record of a move just made gives back the squares and
    the cached kings of the state before the move. *)
Lemma moved_undone g piece from_pos to_pos :
  kings_cached (board g) (white_king_pos g) (black_king_pos g) ->
  get_piece g from_pos = Some piece -> to_pos <> from_pos ->
  let g' := moved g piece from_pos to_pos in
  let m := record g piece from_pos to_pos in
  same_squares (board g) (undone_board m (board g'))
  /\ undone_king White m (white_king_pos g') = white_king_pos g
  /\ undone_king Black m (black_king_pos g') = black_king_pos g.
Proof.
  intros Hk Hp Hne. cbv zeta. split; [|split].
  - intros p. unfold undone_board. simpl. rewrite !board_get_set.
    destruct (sq_eqb p to_pos) eqn:Ept.
    + apply sq_eqb_eq in Ept. subst p. reflexivity.
    + destruct (sq_eqb p from_pos) eqn:Epf; [|reflexivity].
      apply sq_eqb_eq in Epf. subst p. exact Hp.
  - unfold undone_king. simpl.
    destruct (kind_eqb (kind piece) King) eqn:Ek; [|reflexivity].
    destruct (color_eqb (color piece) White) eqn:Ec; [|reflexivity].
    simpl. apply kind_eqb_eq in Ek.
    rewrite (Hk _ _ Hp Ek), Ec. reflexivity.
  - unfold undone_king. simpl.
    destruct (kind_eqb (kind piece) King) eqn:Ek; [|reflexivity].
    destruct (color_eqb (color piece) White) eqn:Ec;
      destruct (color piece) eqn:Ecol; try discriminate Ec; simpl;
      [reflexivity|].
    apply kind_eqb_eq in Ek.
    rewrite (Hk _ _ Hp Ek), Ecol. reflexivity.
Qed.

Lemma moved_kings_cached g piece from_pos to_pos :
  kings_cached (board g) (white_king_pos g) (black_king_pos g) ->
  get_piece g from_pos = Some piece -> to_pos <> from_pos ->
  let g' := moved g piece from_pos to_pos in
  kings_cached (board g') (white_king_pos g') (black_king_pos g').
Proof.
  intros Hk Hp Hne. cbv zeta. intros p k. simpl.
  rewrite !board_get_set.
  destruct (sq_eqb p from_pos) eqn:Epf; [discriminate|].
  apply sq_eqb_neq in Epf.
  destruct (sq_eqb p to_pos) eqn:Ept.
  - apply sq_eqb_eq in Ept. subst p. intros [= <-] Hkk.
    apply kind_eqb_eq in Hkk. rewrite Hkk.
    destruct (color_eqb (color piece) White); reflexivity.
  - intros Hpk Hkk. pose proof (Hk _ _ Hpk Hkk) as Hcache.
    destruct (kind_eqb (kind piece) King) eqn:Ek; [|exact Hcache].
    apply kind_eqb_eq in Ek. pose proof (Hk _ _ Hp Ek) as Hfrom.
    destruct (color piece), (color k); simpl in *; congruence.
Qed.

Lemma Inv_moved g piece from_pos to_pos :
  Inv g -> legal g from_pos to_pos = true ->
  get_piece g from_pos = Some piece ->
  Inv (after_move g piece from_pos to_pos).
Proof.
  intros [Hwf [Hk Hh]] Hl Hp.
  destruct (legal_inv _ _ _ Hl) as [piece' [Hp' [_ [Hin _]]]].
  rewrite Hp in Hp'. injection Hp' as <-.
  apply possible_moves_away in Hin.
  destruct (moved_undone g piece from_pos to_pos Hk Hp Hin) as [Hs [Hw Hb]].
  unfold Inv, after_move.
  change (board (set_game_state ?x _)) with (board x).
  change (white_king_pos (set_game_state ?x _)) with (white_king_pos x).
  change (black_king_pos (set_game_state ?x _)) with (black_king_pos x).
  change (move_history (set_game_state ?x _)) with (move_history x).
  split; [simpl; apply wf_set, wf_set; exact Hwf|].
  split; [apply moved_kings_cached; assumption|].
  change (move_history (moved g piece from_pos to_pos))
    with (move_history g ++ [record g piece from_pos to_pos]).
  rewrite rev_app_distr. cbn [rev app history_ok].
  split; [reflexivity|].
  rewrite Hw, Hb. split.
  - exact (kings_cached_same _ _ _ _ Hs Hk).
  - exact (history_ok_same _ _ _ _ _ Hs Hh).
Qed.

Lemma Inv_make_move g from_pos to_pos promotion_piece :
  Inv g ->
  Inv (state (make_move create_piece from_pos to_pos promotion_piece g)).
Proof.
  intros HI. destruct (legal g from_pos to_pos) eqn:Hl.
  - destruct (legal_inv _ _ _ Hl) as [piece [Hp _]].
    rewrite (make_move_eq create_piece _ _ promotion_piece _ _ Hl Hp).
    apply Inv_moved; assumption.
  - rewrite (make_move_refused create_piece _ _ promotion_piece _ Hl).
    exact HI.
Qed.

Lemma Inv_undo_move g : Inv g -> Inv (state (undo_move g)).
Proof.
  intros HI. destruct (pop (move_history g)) as [[m history]|] eqn:Hpop.
  - destruct HI as [Hwf [Hk Hh]].
    rewrite (pop_inv _ _ _ Hpop), rev_app_distr in Hh. simpl in Hh.
    destruct Hh as [Hc [Hk' Hh']].
    rewrite (undo_move_eq _ _ _ Hpop Hc).
    unfold Inv, after_undo. simpl.
    split; [unfold undone_board; apply wf_set, wf_set; exact Hwf|].
    split; assumption.
  - rewrite (undo_move_empty _ (pop_none _ Hpop)). exact HI.
Qed.

(** Every reachable state has unique board keys, cached kings, and a
    history that can be undone. *)
Lemma Reachable_Inv g : Reachable create_piece g -> Inv g.
Proof.
  induction 1.
  - exact Inv_init.
  - exact Inv_init.
  - apply Inv_make_move. assumption.
  - apply Inv_undo_move. assumption.
Qed.

End Invariant.

(** ** Legal moves are safe for the king *)

Section CheckSafety.
Import Game Closed Reach.
Variable create_piece : string -> Color -> Exn + Piece.

Lemma existsb_false {A} (f : A -> bool) (l : list A) :
  existsb f l = false -> forall x, In x l -> f x = false.
Proof.
  intros H x Hx. destruct (f x) eqn:E; [|reflexivity].
  assert (existsb f l = true) by (apply existsb_exists; eauto).
  congruence.
Qed.

(** C1: in every reachable game state, every pair [(from_pos, to_pos)]
    that [get_legal_moves] returns for the side to move is accepted by
    [make_move], and on the board the move leaves no piece of the other
    colour has among its candidates a square on which a king of the
    moving colour stands. *)
Theorem legal_moves_check_safe
        (g : Game.t) (moves : list (Square * Square))
        (from_pos to_pos : Square) (promotion_piece : string) :
  Reachable create_piece g ->
  get_legal_moves (current_turn g) g = Return moves g ->
  In (from_pos, to_pos) moves ->
  exists g',
    make_move create_piece from_pos to_pos promotion_piece g = Return true g'
    /\ forall p k,
        In (p, Some k) (board g') -> kind k = King ->
        color k = current_turn g ->
        forall q a,
          In (q, Some a) (board g') -> color a <> current_turn g ->
          ~ In p (Pieces.possible_moves a q (board g')).
Proof.
  intros Hreach Hget Hin.
  rewrite get_legal_moves_eq in Hget. injection Hget as <-.
  unfold legal_moves in Hin. apply filter_In in Hin. destruct Hin as [_ Hl].
  destruct (legal_inv _ _ _ Hl) as [piece [Hp [Hc [_ Hck]]]].
  pose proof (Reachable_Inv create_piece g Hreach) as HI.
  pose proof (Inv_moved g piece from_pos to_pos HI Hl Hp) as [Hwf [Hk _]].
  exists (after_move g piece from_pos to_pos).
  split; [apply make_move_eq; assumption|].
  intros p k Hpk Hkk Hkc q a Hqa Hac Hatt.
  apply (board_get_In _ _ _ Hwf) in Hpk.
  pose proof (Hk _ _ Hpk Hkk) as Hcache.
  unfold is_in_check, is_square_under_attack in Hck.
  rewrite hypothetical_board in Hck.
  pose proof (existsb_false _ _ Hck (q, Some a) Hqa) as Hq.
  cbv beta iota in Hq.
  assert (Hen : color_eqb (color a)
                  (if color_eqb (color piece) White then Black else White)
                = true).
  { rewrite Hc. destruct (color a), (current_turn g); simpl; congruence. }
  rewrite Hen in Hq. cbn [andb] in Hq.
  assert (Hpos : get_king_position (hypothetical g piece from_pos to_pos)
                                   (color piece) = p).
  { rewrite Hcache. rewrite Hkc, <- Hc.
    unfold get_king_position, hypothetical. simpl.
    destruct (kind_eqb (kind piece) King);
      destruct (color_eqb (color piece) White); reflexivity. }
  rewrite Hpos in Hq.
  apply sq_in_In in Hatt.
  change (board (after_move g piece from_pos to_pos))
    with (Dict.set (Dict.set (board g) to_pos (Some piece)) from_pos None)
    in Hatt.
  congruence.
Qed.

End CheckSafety.

Lemma legal_moves_check_safe_witness :
  exists g',
    Game.make_move Positions.create_piece (6, 4) (4, 4) "queen" Game.init
    = Game.Return true g'
    /\ forall p k,
        In (p, Some k) (Game.board g') -> kind k = King ->
        color k = Game.current_turn Game.init ->
        forall q a,
          In (q, Some a) (Game.board g') ->
          color a <> Game.current_turn Game.init ->
          ~ In p (Pieces.possible_moves a q (Game.board g')).
Proof.
  apply (legal_moves_check_safe Positions.create_piece Game.init
           (Closed.legal_moves Game.init White) (6, 4) (4, 4) "queen").
  - apply Reach.reach_init.
  - vm_compute. reflexivity.
  - vm_compute. repeat (first [left; reflexivity | right]).
Defined.

(** The example positions are reachable. *)
Lemma play_reachable (line : list (Square * Square)) (g : Game.t) :
  Reach.Reachable Positions.create_piece g ->
  Reach.Reachable Positions.create_piece (Positions.play line g).
Proof.
  revert g. induction line as [|[from_pos to_pos] rest IH]; intros g H.
  - exact H.
  - simpl. apply IH. apply Reach.reach_make_move. exact H.
Qed.

Lemma positions_reachable :
  Reach.Reachable Positions.create_piece Positions.italian
  /\ Reach.Reachable Positions.create_piece Positions.pawn_on_seventh
  /\ Reach.Reachable Positions.create_piece Positions.king_walk
  /\ Reach.Reachable Positions.create_piece Positions.quiet_99
  /\ Reach.Reachable Positions.create_piece Positions.quiet_102.
Proof.
  assert (H99 : Reach.Reachable Positions.create_piece Positions.quiet_99)
    by (apply play_reachable, Reach.reach_init).
  split; [apply play_reachable, Reach.reach_init|].
  split; [apply play_reachable, Reach.reach_init|].
  split; [apply play_reachable, Reach.reach_init|].
  split; [exact H99|].
  apply play_reachable. exact H99.
Qed.

(** ** [make_move] always returns *)

Section Totality.
Import Game Closed.
Variable create_piece : string -> Color -> Exn + Piece.

(** Whatever the state and the request, [make_move] returns a boolean:
    the branches that could raise (castling, promotion) are never
    entered. *)
Lemma make_move_returns g from_pos to_pos promotion_piece :
  exists b g',
    make_move create_piece from_pos to_pos promotion_piece g = Return b g'.
Proof.
  destruct (legal g from_pos to_pos) eqn:Hl.
  - destruct (legal_inv _ _ _ Hl) as [piece [Hp _]].
    exists true, (after_move g piece from_pos to_pos).
    apply make_move_eq; assumption.
  - exists false, g. apply make_move_refused. exact Hl.
Qed.

End Totality.

(** * Further properties of the pieces *)

Section PieceGeometry.
Import Pieces.

Lemma Forall_flat_map_intro {A B} (P : B -> Prop) (f : A -> list B) (l : list A) :
  (forall x, In x l -> List.Forall P (f x)) -> List.Forall P (flat_map f l).
Proof.
  intros H. apply List.Forall_forall. intros y Hy.
  apply in_flat_map in Hy. destruct Hy as [x [Hx Hy]].
  specialize (H x Hx). rewrite List.Forall_forall in H. auto.
Qed.

(** What a ray collects: squares of the board, whole steps away, reached
    over empty squares, themselves empty or held by an enemy. *)
Lemma ray_squares self b dr dc n :
  forall r c p,
    In p (ray n self b dr dc r c) ->
    exists k,
      1 <= k /\ p = (r + k * dr, c + k * dc)
      /\ is_valid_position (fst p) (snd p) = true
      /\ (is_empty_square (board_get b p)
          || is_enemy_piece self (board_get b p) = true)
      /\ forall j, 1 <= j < k -> board_get b (r + j * dr, c + j * dc) = None.
Proof.
  induction n as [|n IH]; intros r c p; simpl; [tauto|].
  destruct (is_valid_position (r + dr) (c + dc)) eqn:Hv; simpl; [|tauto].
  destruct (is_empty_square (board_get b (r + dr, c + dc))) eqn:He.
  - intros [<-|H].
    + exists 1. split; [lia|]. split; [f_equal; lia|]. simpl.
      split; [exact Hv|]. split; [rewrite He; reflexivity|]. intros j Hj. lia.
    + apply IH in H. destruct H as [k [Hk [-> [Hval [Hocc Hpath]]]]].
      exists (k + 1). split; [lia|]. split; [f_equal; lia|].
      split; [exact Hval|]. split; [exact Hocc|].
      intros j Hj. destruct (Z.eq_dec j 1) as [->|Hne].
      * replace (r + 1 * dr) with (r + dr) by lia.
        replace (c + 1 * dc) with (c + dc) by lia.
        destruct (board_get b (r + dr, c + dc)); [discriminate He|reflexivity].
      * replace (r + j * dr) with (r + dr + (j - 1) * dr) by lia.
        replace (c + j * dc) with (c + dc + (j - 1) * dc) by lia.
        apply Hpath. lia.
  - destruct (is_enemy_piece self (board_get b (r + dr, c + dc))) eqn:Hen;
      simpl; [|tauto].
    intros [<-|[]]. exists 1. split; [lia|]. split; [f_equal; lia|]. simpl.
    split; [exact Hv|]. split; [rewrite Hen; apply orb_true_r|].
    intros j Hj. lia.
Qed.


Lemma line_moves_squares self b dirs r c p :
  In p (line_moves self (r, c) b dirs) ->
  exists dr dc k,
    In (dr, dc) dirs /\ 1 <= k /\ p = (r + k * dr, c + k * dc)
    /\ is_valid_position (fst p) (snd p) = true
    /\ (is_empty_square (board_get b p)
        || is_enemy_piece self (board_get b p) = true)
    /\ forall j, 1 <= j < k -> board_get b (r + j * dr, c + j * dc) = None.
Proof.
  unfold line_moves. rewrite in_flat_map.
  intros [[dr dc] [Hin H]]. apply ray_squares in H.
  destruct H as [k H]. exists dr, dc, k. tauto.
Qed.

Lemma step_moves_iff self b offs r c p :
  In p (step_moves self (r, c) b offs) <->
  exists dr dc,
    In (dr, dc) offs /\ p = (r + dr, c + dc)
    /\ is_valid_position (fst p) (snd p) = true
    /\ (is_empty_square (board_get b p)
        || is_enemy_piece self (board_get b p) = true).
Proof.
  unfold step_moves. rewrite in_flat_map. split.
  - intros [[dr dc] [Hin H]].
    destruct (is_valid_position (r + dr) (c + dc)) eqn:Hv; [|destruct H].
    destruct (_ || _) eqn:Ho; [|destruct H].
    destruct H as [<-|[]]. exists dr, dc. auto.
  - intros [dr [dc [Hin [-> [Hv Ho]]]]]. exists (dr, dc). split; [exact Hin|].
    simpl in Hv. rewrite Hv, Ho. left. reflexivity.
Qed.

Lemma empty_None (o : option Piece) : is_empty_square o = true -> o = None.
Proof. destruct o; [discriminate|reflexivity]. Qed.

(** Every candidate is a square of the board, empty or held by an enemy. *)
Lemma possible_moves_in self pos b p :
  In p (possible_moves self pos b) ->
  is_valid_position (fst p) (snd p) = true
  /\ (is_empty_square (board_get b p)
      || is_enemy_piece self (board_get b p) = true).
Proof.
  intros Hin.
  split;
    destruct pos as [r c]; unfold possible_moves in Hin;
    destruct (kind self);
    try (apply line_moves_squares in Hin;
         destruct Hin as [dr [dc [k [_ [_ [_ [Hv [Ho _]]]]]]]]; assumption);
    try (apply step_moves_iff in Hin;
         destruct Hin as [dr [dc [_ [_ [Hv Ho]]]]]; assumption).
  - unfold pawn_moves in Hin. apply in_app_iff in Hin. destruct Hin as [H|H].
    + destruct (_ && _) eqn:E1; [|destruct H].
      apply andb_true_iff in E1. destruct E1 as [Hv1 _].
      destruct H as [<-|H]; [exact Hv1|].
      destruct (r =? _); [|destruct H].
      destruct (_ && _) eqn:E2; [|destruct H].
      apply andb_true_iff in E2. destruct E2 as [Hv2 _].
      destruct H as [<-|[]]. exact Hv2.
    + apply in_flat_map in H. destruct H as [off [_ H]].
      destruct (_ && _) eqn:E; [|destruct H].
      apply andb_true_iff in E. destruct E as [Hv _].
      destruct H as [<-|[]]. exact Hv.
  - unfold pawn_moves in Hin. apply in_app_iff in Hin. destruct Hin as [H|H].
    + destruct (_ && _) eqn:E1; [|destruct H].
      apply andb_true_iff in E1. destruct E1 as [_ He1].
      destruct H as [<-|H]; [rewrite He1; reflexivity|].
      destruct (r =? _); [|destruct H].
      destruct (_ && _) eqn:E2; [|destruct H].
      apply andb_true_iff in E2. destruct E2 as [_ He2].
      destruct H as [<-|[]]. rewrite He2. reflexivity.
    + apply in_flat_map in H. destruct H as [off [_ H]].
      destruct (_ && _) eqn:E; [|destruct H].
      apply andb_true_iff in E. destruct E as [_ He].
      destruct H as [<-|[]]. rewrite He. apply orb_true_r.
Qed.

(** X1: every square in [possible_moves], for every class of piece, every
    origin and every board, is a square of the board and is empty or held
    by a piece of the other colour; the origin itself is never among
    them. *)
Theorem possible_moves_targets (self : Piece) (pos : Square) (b : Board) :
  List.Forall
    (fun p => is_valid_position (fst p) (snd p) = true
              /\ (is_empty_square (board_get b p)
                  || is_enemy_piece self (board_get b p) = true)
              /\ p <> pos)
    (possible_moves self pos b).
Proof.
  apply List.Forall_forall. intros p Hin.
  destruct (possible_moves_in _ _ _ _ Hin) as [Hv Ho].
  split; [exact Hv|]. split; [exact Ho|].
  exact (possible_moves_away _ _ _ _ Hin).
Qed.

(** X2: a rook, a bishop and a queen do not jump: every square in their
    [possible_moves] lies a whole number [k >= 1] of steps from the origin
    along one of the directions of the class (ranks and files for the
    rook, diagonals for the bishop, both for the queen), and the [k - 1]
    squares passed on the way are empty. *)
Theorem sliding_moves_clear_path (self : Piece) (r c : Z) (b : Board) :
  kind self = Rook \/ kind self = Bishop \/ kind self = Queen ->
  List.Forall
    (fun p => exists dr dc k,
         In (dr, dc) (own_directions (kind self))
         /\ 1 <= k /\ p = (r + k * dr, c + k * dc)
         /\ forall j, 1 <= j < k -> board_get b (r + j * dr, c + j * dc) = None)
    (possible_moves self (r, c) b).
Proof.
  intros Hk. apply List.Forall_forall. intros p Hin.
  unfold possible_moves in Hin.
  assert (H : In p (line_moves self (r, c) b (own_directions (kind self)))).
  { destruct Hk as [Hk|[Hk|Hk]]; rewrite Hk in *; exact Hin. }
  apply line_moves_squares in H.
  destruct H as [dr [dc [k [Hd [Hk1 [Hp [_ [_ Hpath]]]]]]]].
  exists dr, dc, k. auto.
Qed.

(** X3: the candidates of a pawn.  A candidate in the pawn's own file is
    an empty square one step forward, or two steps forward from the start
    row of its colour over an empty square; a candidate in another file
    is one step forward in a neighbouring file and holds a piece of the
    other colour.  Forward is towards row 7 for black and row 0 for
    white. *)
Theorem pawn_moves_shape (self : Piece) (r c : Z) (b : Board) :
  let d := if color_eqb (color self) Black then 1 else -1 in
  let start_row := if color_eqb (color self) Black then 1 else 6 in
  List.Forall
    (fun p =>
       (snd p = c /\ board_get b p = None
        /\ (fst p = r + d
            \/ (fst p = r + 2 * d /\ r = start_row
                /\ board_get b (r + d, c) = None)))
       \/ (fst p = r + d /\ (snd p = c - 1 \/ snd p = c + 1)
           /\ is_enemy_piece self (board_get b p) = true))
    (pawn_moves self (r, c) b).
Proof.
  cbv zeta. apply List.Forall_forall. intros p Hin.
  unfold pawn_moves in Hin. apply in_app_iff in Hin. destruct Hin as [H|H].
  - left.
    destruct (_ && _) eqn:E1; [|destruct H].
    apply andb_true_iff in E1. destruct E1 as [_ He1].
    pose proof (empty_None _ He1) as Hn1.
    destruct H as [<-|H]; [simpl; auto|].
    destruct (r =? _) eqn:Er; [|destruct H]. apply Z.eqb_eq in Er.
    destruct (_ && _) eqn:E2; [|destruct H].
    apply andb_true_iff in E2. destruct E2 as [_ He2].
    destruct H as [<-|[]]. simpl.
    split; [reflexivity|].
    split; [exact (empty_None _ He2)|].
    right. auto.
  - right. apply in_flat_map in H. destruct H as [off [Hoff H]].
    destruct (_ && _) eqn:E; [|destruct H].
    apply andb_true_iff in E. destruct E as [_ He].
    destruct H as [<-|[]]. simpl. split; [reflexivity|]. split; [|exact He].
    simpl in Hoff. lia.
Qed.

(** X4: the candidates of a king are exactly the squares of the board at
    most one row and one file away, other than its own, that are empty or
    hold a piece of the other colour; those of a knight are exactly such
    squares one row and two files, or two rows and one file, away. *)
Theorem king_knight_moves_iff (self : Piece) (r c : Z) (b : Board) (p : Square) :
  kind self = King \/ kind self = Knight ->
  (In p (possible_moves self (r, c) b) <->
   is_valid_position (fst p) (snd p) = true
   /\ (is_empty_square (board_get b p)
       || is_enemy_piece self (board_get b p) = true)
   /\ if kind_eqb (kind self) King
      then Z.max (Z.abs (fst p - r)) (Z.abs (snd p - c)) = 1
      else (Z.abs (fst p - r) = 1 /\ Z.abs (snd p - c) = 2)
           \/ (Z.abs (fst p - r) = 2 /\ Z.abs (snd p - c) = 1)).
Proof.
  intros Hk. unfold possible_moves.
  destruct Hk as [Hk|Hk]; rewrite Hk; simpl kind_eqb; cbv iota;
    rewrite step_moves_iff; split.
  - intros [dr [dc [Hin [-> [Hv Ho]]]]]. split; [exact Hv|]. split; [exact Ho|].
    simpl in *.
    repeat (destruct Hin as [[= <- <-]|Hin]; [lia|]). destruct Hin.
  - intros [Hv [Ho Hd]]. destruct p as [pr pc]. simpl in *.
    exists (pr - r), (pc - c).
    split; [|split; [f_equal; lia|auto]].
    assert (Hr : pr - r = -1 \/ pr - r = 0 \/ pr - r = 1) by lia.
    assert (Hc : pc - c = -1 \/ pc - c = 0 \/ pc - c = 1) by lia.
    unfold king_directions.
    destruct Hr as [Hr|[Hr|Hr]]; destruct Hc as [Hc|[Hc|Hc]];
      rewrite Hr, Hc; simpl;
      first [ solve [repeat (first [left; reflexivity | right])]
            | exfalso; lia ].
  - intros [dr [dc [Hin [-> [Hv Ho]]]]]. split; [exact Hv|]. split; [exact Ho|].
    simpl in *.
    repeat (destruct Hin as [[= <- <-]|Hin]; [lia|]). destruct Hin.
  - intros [Hv [Ho Hd]]. destruct p as [pr pc]. simpl in *.
    exists (pr - r), (pc - c).
    split; [|split; [f_equal; lia|auto]].
    assert (Hr : pr - r = -2 \/ pr - r = -1 \/ pr - r = 1 \/ pr - r = 2) by lia.
    assert (Hc : pc - c = -2 \/ pc - c = -1 \/ pc - c = 1 \/ pc - c = 2) by lia.
    unfold knight_offsets.
    destruct Hr as [Hr|[Hr|[Hr|Hr]]]; destruct Hc as [Hc|[Hc|[Hc|Hc]]];
      rewrite Hr, Hc; simpl;
      first [ solve [repeat (first [left; reflexivity | right])]
            | exfalso; lia ].
Qed.

End PieceGeometry.

(** * Further properties of the game *)

Section MoveEffects.
Import Game Closed.
Variable create_piece : string -> Color -> Exn + Piece.

(** X5: for every state and every request, [make_move] returns (it
    never raises) the very boolean [is_legal_move] returns for the same
    squares; when that is [False] the state is untouched. *)
Theorem make_move_as_is_legal_move
        (g : Game.t) (from_pos to_pos : Square) (promotion_piece : string) :
  exists b g',
    is_legal_move from_pos to_pos g = Return b g
    /\ make_move create_piece from_pos to_pos promotion_piece g = Return b g'
    /\ (b = false -> g' = g).
Proof.
  destruct (legal g from_pos to_pos) eqn:Hl.
  - destruct (legal_inv _ _ _ Hl) as [piece [Hp _]].
    exists true, (after_move g piece from_pos to_pos).
    split; [rewrite is_legal_move_eq, Hl; reflexivity|].
    split; [apply make_move_eq; assumption|discriminate].
  - exists false, g.
    split; [rewrite is_legal_move_eq, Hl; reflexivity|].
    split; [apply make_move_refused; exact Hl|reflexivity].
Qed.

Lemma make_move_true_inv g g' from_pos to_pos promotion_piece :
  make_move create_piece from_pos to_pos promotion_piece g = Return true g' ->
  exists piece,
    get_piece g from_pos = Some piece
    /\ legal g from_pos to_pos = true
    /\ g' = after_move g piece from_pos to_pos.
Proof.
  intros Hmk. destruct (legal g from_pos to_pos) eqn:Hl.
  - destruct (legal_inv _ _ _ Hl) as [piece [Hp _]].
    rewrite (make_move_eq create_piece _ _ promotion_piece _ _ Hl Hp) in Hmk.
    injection Hmk as <-. exists piece. auto.
  - rewrite (make_move_refused create_piece _ _ promotion_piece _ Hl) in Hmk.
    discriminate.
Qed.

(** X6: what an accepted move does to the position.  The piece of the
    side to move that stood on [from_pos] stands on [to_pos], [from_pos]
    is empty, every other square is as before, the turn passes to the
    other side, and one record is appended to the history: the two
    squares, the piece, what stood on [to_pos], and no special-move
    flag. *)
Theorem make_move_effect
        (g g' : Game.t) (from_pos to_pos : Square) (promotion_piece : string) :
  make_move create_piece from_pos to_pos promotion_piece g = Return true g' ->
  exists piece,
    get_piece g from_pos = Some piece
    /\ color piece = current_turn g
    /\ get_piece g' from_pos = None
    /\ get_piece g' to_pos = Some piece
    /\ (forall p, p <> from_pos -> p <> to_pos -> get_piece g' p = get_piece g p)
    /\ current_turn g' = opposite (current_turn g)
    /\ move_history g'
       = move_history g
         ++ [Move.mk from_pos to_pos piece (get_piece g to_pos)
                     false false false None].
Proof.
  intros Hmk. destruct (make_move_true_inv _ _ _ _ _ Hmk) as [piece [Hp [Hl ->]]].
  destruct (legal_inv _ _ _ Hl) as [piece' [Hp' [Hc [Hin _]]]].
  rewrite Hp in Hp'. injection Hp' as <-.
  apply possible_moves_away in Hin.
  exists piece. split; [exact Hp|]. split; [exact Hc|].
  unfold get_piece. simpl. split; [|split; [|split]].
  - rewrite board_get_set, sq_eqb_refl. reflexivity.
  - rewrite !board_get_set, sq_eqb_refl.
    apply sq_eqb_neq in Hin. rewrite Hin. reflexivity.
  - intros p Hpf Hpt. rewrite !board_get_set.
    apply sq_eqb_neq in Hpf. apply sq_eqb_neq in Hpt. rewrite Hpf, Hpt.
    reflexivity.
  - split; reflexivity.
Qed.

(** X7: the counters after an accepted move.  The half-move clock is 0
    when a pawn has moved or [to_pos] held a piece, and one more than
    before otherwise; the full-move number grows by one exactly when black
    has moved; the moved piece has its [has_moved] flag set. *)
Theorem make_move_counters
        (g g' : Game.t) (from_pos to_pos : Square) (promotion_piece : string) :
  make_move create_piece from_pos to_pos promotion_piece g = Return true g' ->
  exists piece,
    get_piece g from_pos = Some piece
    /\ halfmove_clock g'
       = (if kind_eqb (kind piece) Pawn then 0
          else match get_piece g to_pos with
               | Some _ => 0
               | None => halfmove_clock g + 1
               end)
    /\ fullmove_number g'
       = (if color_eqb (current_turn g) Black then fullmove_number g + 1
          else fullmove_number g)
    /\ pid piece ∈ has_moved g'
    /\ en_passant_target g' = en_passant_target g.
Proof.
  intros Hmk. destruct (make_move_true_inv _ _ _ _ _ Hmk) as [piece [Hp [Hl ->]]].
  exists piece. split; [exact Hp|]. simpl.
  split; [|split; [reflexivity|split; [set_solver|reflexivity]]].
  destruct (kind_eqb (kind piece) Pawn); [reflexivity|].
  destruct (get_piece g to_pos); reflexivity.
Qed.

(** X8: an accepted move of a piece that is neither a king nor a rook
    leaves all four castling rights as they were -- also when it takes a
    rook that stands on its home square. *)
Theorem make_move_other_piece_keeps_rights
        (g g' : Game.t) (from_pos to_pos : Square) (promotion_piece : string)
        (piece : Piece) :
  make_move create_piece from_pos to_pos promotion_piece g = Return true g' ->
  get_piece g from_pos = Some piece ->
  kind piece <> King -> kind piece <> Rook ->
  castling_rights g' = castling_rights g.
Proof.
  intros Hmk Hp Hk Hr.
  destruct (make_move_true_inv _ _ _ _ _ Hmk) as [piece' [Hp' [_ ->]]].
  rewrite Hp in Hp'. injection Hp' as <-. simpl. unfold rights_after.
  destruct (kind_eqb (kind piece) King) eqn:E1;
    [apply kind_eqb_eq in E1; contradiction|].
  destruct (kind_eqb (kind piece) Rook) eqn:E2;
    [apply kind_eqb_eq in E2; contradiction|].
  reflexivity.
Qed.

(** X9: an accepted move of a king clears both castling rights of its
    colour and leaves the two rights of the other colour as they were. *)
Theorem make_move_king_clears_rights
        (g g' : Game.t) (from_pos to_pos : Square) (promotion_piece : string)
        (piece : Piece) :
  make_move create_piece from_pos to_pos promotion_piece g = Return true g' ->
  get_piece g from_pos = Some piece -> kind piece = King ->
  castling_rights g' !! (color_name (color piece) +:+ "_kingside") = Some false
  /\ castling_rights g' !! (color_name (color piece) +:+ "_queenside")
     = Some false
  /\ castling_rights g' !! (color_name (opposite (color piece)) +:+ "_kingside")
     = castling_rights g
         !! (color_name (opposite (color piece)) +:+ "_kingside")
  /\ castling_rights g' !! (color_name (opposite (color piece)) +:+ "_queenside")
     = castling_rights g
         !! (color_name (opposite (color piece)) +:+ "_queenside").
Proof.
  intros Hmk Hp Hk.
  destruct (make_move_true_inv _ _ _ _ _ Hmk) as [piece' [Hp' [_ ->]]].
  rewrite Hp in Hp'. injection Hp' as <-. simpl. unfold rights_after.
  rewrite Hk. simpl.
  destruct (color piece); simpl; (split; [|split; [|split]]);
    rewrite !lookup_insert; repeat case_decide;
    try discriminate; try congruence; auto.
Qed.

End MoveEffects.

Lemma sliding_moves_clear_path_witness :
  List.Forall
    (fun p => exists dr dc k,
         In (dr, dc) (own_directions Rook)
         /\ 1 <= k /\ p = (7 + k * dr, 7 + k * dc)
         /\ forall j, 1 <= j < k ->
                      board_get (Game.board Positions.italian)
                                (7 + j * dr, 7 + j * dc) = None)
    (Pieces.possible_moves (mkPiece 31 Rook White) (7, 7)
                           (Game.board Positions.italian)).
Proof.
  apply (sliding_moves_clear_path (mkPiece 31 Rook White) 7 7
                                  (Game.board Positions.italian)).
  left. reflexivity.
Defined.

Lemma king_knight_moves_iff_witness :
  In (7, 5) (Pieces.possible_moves (mkPiece 28 King White) (7, 4)
                                   (Game.board Positions.italian))
  <-> Pieces.is_valid_position 7 5 = true
      /\ (Pieces.is_empty_square (board_get (Game.board Positions.italian) (7, 5))
          || Pieces.is_enemy_piece (mkPiece 28 King White)
               (board_get (Game.board Positions.italian) (7, 5)) = true)
      /\ Z.max (Z.abs (7 - 7)) (Z.abs (5 - 4)) = 1.
Proof.
  apply (king_knight_moves_iff (mkPiece 28 King White) 7 4
                               (Game.board Positions.italian) (7, 5)).
  left. reflexivity.
Defined.

Lemma make_move_effect_witness :
  exists piece,
    Game.get_piece Game.init (6, 4) = Some piece
    /\ color piece = Game.current_turn Game.init
    /\ Game.get_piece
         (Closed.state (Game.make_move Positions.create_piece (6, 4) (4, 4)
                                       "queen" Game.init)) (6, 4) = None
    /\ Game.get_piece
         (Closed.state (Game.make_move Positions.create_piece (6, 4) (4, 4)
                                       "queen" Game.init)) (4, 4) = Some piece
    /\ (forall p, p <> (6, 4) -> p <> (4, 4) ->
                  Game.get_piece
                    (Closed.state (Game.make_move Positions.create_piece
                                     (6, 4) (4, 4) "queen" Game.init)) p
                  = Game.get_piece Game.init p)
    /\ Game.current_turn
         (Closed.state (Game.make_move Positions.create_piece (6, 4) (4, 4)
                                       "queen" Game.init))
       = Game.opposite (Game.current_turn Game.init)
    /\ Game.move_history
         (Closed.state (Game.make_move Positions.create_piece (6, 4) (4, 4)
                                       "queen" Game.init))
       = Game.move_history Game.init
         ++ [Move.mk (6, 4) (4, 4) piece (Game.get_piece Game.init (4, 4))
                     false false false None].
Proof.
  apply (make_move_effect Positions.create_piece Game.init _
                          (6, 4) (4, 4) "queen").
  vm_compute. reflexivity.
Defined.

Lemma make_move_counters_witness :
  let g := Positions.italian in
  let g' := Closed.state (Game.make_move Positions.create_piece (5, 5) (3, 4)
                                         "queen" Positions.italian) in
  exists piece,
    Game.get_piece g (5, 5) = Some piece
    /\ Game.halfmove_clock g'
       = (if kind_eqb (kind piece) Pawn then 0
          else match Game.get_piece g (3, 4) with
               | Some _ => 0
               | None => Game.halfmove_clock g + 1
               end)
    /\ Game.fullmove_number g'
       = (if color_eqb (Game.current_turn g) Black
          then Game.fullmove_number g + 1
          else Game.fullmove_number g)
    /\ pid piece ∈ Game.has_moved g'
    /\ Game.en_passant_target g' = Game.en_passant_target g.
Proof.
  cbv zeta.
  apply (make_move_counters Positions.create_piece Positions.italian _
                            (5, 5) (3, 4) "queen").
  vm_compute. reflexivity.
Defined.

Lemma make_move_other_piece_keeps_rights_witness :
  Game.castling_rights
    (Closed.state (Game.make_move Positions.create_piece (6, 4) (4, 4)
                                  "queen" Game.init))
  = Game.castling_rights Game.init.
Proof.
  apply (make_move_other_piece_keeps_rights Positions.create_piece Game.init _
           (6, 4) (4, 4) "queen" (mkPiece 20 Pawn White)).
  - vm_compute. reflexivity.
  - vm_compute. reflexivity.
  - discriminate.
  - discriminate.
Defined.

Lemma make_move_king_clears_rights_witness :
  let g := Positions2.open_game in
  let g' := Closed.state (Game.make_move Positions.create_piece (7, 4) (6, 4)
                                         "queen" Positions2.open_game) in
  Game.castling_rights g' !! "white_kingside" = Some false
  /\ Game.castling_rights g' !! "white_queenside" = Some false
  /\ Game.castling_rights g' !! "black_kingside"
     = Game.castling_rights g !! "black_kingside"
  /\ Game.castling_rights g' !! "black_queenside"
     = Game.castling_rights g !! "black_queenside".
Proof.
  cbv zeta.
  apply (make_move_king_clears_rights Positions.create_piece
           Positions2.open_game _ (7, 4) (6, 4) "queen" (mkPiece 28 King White)).
  - vm_compute. reflexivity.
  - vm_compute. reflexivity.
  - reflexivity.
Defined.

(** * Further properties of [undo_move] *)

Section UndoFrame.
Import Game Closed Reach2.

Lemma keeps_ret' {A F} (field : Game.t -> F) (a : A) : keeps field (ret a).
Proof. intros g. reflexivity. Qed.

Lemma keeps_call' {A F} (field : Game.t -> F) (f : Game.t -> A) :
  keeps field (call f).
Proof. intros g. reflexivity. Qed.

Lemma keeps_assign' {F} (field : Game.t -> F) (f : Game.t -> Game.t) :
  (forall g, field (f g) = field g) -> keeps field (assign f).
Proof. intros H g. apply H. Qed.

Lemma keeps_bind' {A B F} (field : Game.t -> F) (m : M A) (k : A -> M B) :
  keeps field m -> (forall a, keeps field (k a)) -> keeps field (bind m k).
Proof.
  intros Hm Hk g. unfold bind. specialize (Hm g).
  destruct (m g) as [a g'|e g']; simpl in *.
  - rewrite Hk. exact Hm.
  - exact Hm.
Qed.

Lemma keeps_board_index' {F} (field : Game.t -> F) position :
  keeps field (board_index position).
Proof.
  intros g. unfold board_index, expect.
  destruct (Dict.index _ _); reflexivity.
Qed.

Lemma keeps_update_game_state' {F} (field : Game.t -> F) :
  (forall g s, field (set_game_state g s) = field g) ->
  keeps field update_game_state.
Proof. intros H g. rewrite update_game_state_eq. simpl. apply H. Qed.

Ltac keeps_field :=
  repeat first
         [ apply keeps_ret' | apply keeps_call' | apply keeps_board_index'
         | apply keeps_update_game_state'; intros ? ?; reflexivity
         | apply keeps_bind'; [|intros ?]
         | apply keeps_assign'; intros ?; simpl;
           repeat match goal with
                  | |- context [if ?c then _ else _] => destruct c; simpl
                  end; reflexivity
         | match goal with
           | |- keeps _ (if ?c then _ else _) => destruct c
           | |- keeps _ (match ?c with _ => _ end) => destruct c
           end ].

Lemma undo_move_keeps_clock : keeps halfmove_clock undo_move.
Proof. unfold undo_move, board_assign, update_king_position. keeps_field. Qed.

Lemma undo_move_keeps_number : keeps fullmove_number undo_move.
Proof. unfold undo_move, board_assign, update_king_position. keeps_field. Qed.

Lemma undo_move_keeps_target : keeps en_passant_target undo_move.
Proof. unfold undo_move, board_assign, update_king_position. keeps_field. Qed.

Lemma undo_move_keeps_rights : keeps castling_rights undo_move.
Proof. unfold undo_move, board_assign, update_king_position. keeps_field. Qed.

(** X10: [undo_move] never assigns to the castling rights, the half-move
    clock, the full-move number or the en-passant target: in every state,
    whether it returns [True], returns [False] or raises, the four are
    afterwards what they were before the call -- the values the undone
    move had left, not the values before that move. *)
Theorem undo_move_frame (g : Game.t) :
  castling_rights (state (undo_move g)) = castling_rights g
  /\ halfmove_clock (state (undo_move g)) = halfmove_clock g
  /\ fullmove_number (state (undo_move g)) = fullmove_number g
  /\ en_passant_target (state (undo_move g)) = en_passant_target g.
Proof.
  split; [apply undo_move_keeps_rights|].
  split; [apply undo_move_keeps_clock|].
  split; [apply undo_move_keeps_number|apply undo_move_keeps_target].
Qed.

End UndoFrame.

Section UndoReachable.
Import Game Closed Reach.
Variable create_piece : string -> Color -> Exn + Piece.

(** X11: in every reachable state [undo_move] returns and does not
    raise.  With an empty history it returns [False] and changes nothing.
    Otherwise it returns [True]: the history loses its last record [m],
    the turn passes back, [m]'s captured piece (or nothing) stands on
    [m.to_pos], [m]'s piece on [m.from_pos], and every other square is as
    before. *)
Theorem undo_move_reachable (g : Game.t) :
  Reachable create_piece g ->
  (move_history g = [] /\ undo_move g = Return false g)
  \/ exists m history g',
      move_history g = history ++ [m]
      /\ undo_move g = Return true g'
      /\ move_history g' = history
      /\ current_turn g' = opposite (current_turn g)
      /\ forall p,
          get_piece g' p
          = if sq_eqb p (Move.to_pos m) then Move.captured_piece m
            else if sq_eqb p (Move.from_pos m) then Some (Move.piece m)
                 else get_piece g p.
Proof.
  intros Hreach. pose proof (Reachable_Inv create_piece g Hreach) as [_ [_ Hh]].
  destruct (pop (move_history g)) as [[m history]|] eqn:Hpop.
  - right. pose proof (pop_inv _ _ _ Hpop) as Hhist.
    rewrite Hhist, rev_app_distr in Hh. cbn [rev app history_ok] in Hh.
    destruct Hh as [Hc _].
    exists m, history, (after_undo g m history).
    split; [exact Hhist|]. split; [apply undo_move_eq; assumption|].
    split; [reflexivity|]. split; [reflexivity|].
    intros p. unfold get_piece. simpl. unfold undone_board.
    rewrite !board_get_set. reflexivity.
  - left. pose proof (pop_none _ Hpop) as Hnil.
    split; [exact Hnil|apply undo_move_empty; exact Hnil].
Qed.

End UndoReachable.

Lemma undo_move_reachable_witness :
  (Game.move_history Positions.italian = []
   /\ Game.undo_move Positions.italian = Game.Return false Positions.italian)
  \/ exists m history g',
      Game.move_history Positions.italian = history ++ [m]
      /\ Game.undo_move Positions.italian = Game.Return true g'
      /\ Game.move_history g' = history
      /\ Game.current_turn g'
         = Game.opposite (Game.current_turn Positions.italian)
      /\ forall p,
          Game.get_piece g' p
          = if sq_eqb p (Move.to_pos m) then Move.captured_piece m
            else if sq_eqb p (Move.from_pos m) then Some (Move.piece m)
                 else Game.get_piece Positions.italian p.
Proof.
  apply (undo_move_reachable Positions.create_piece Positions.italian).
  apply play_reachable, Reach.reach_init.
Defined.

(** * What never happens in a reachable game *)

Section NeverHappens.
Import Game Closed Reach Reach2.
Variable create_piece : string -> Color -> Exn + Piece.

Lemma board_initial_pieces p k :
  board_get create_board p = Some k -> In k initial_pieces.
Proof.
  intros H. apply board_get_index, index_In in H.
  unfold initial_pieces. apply in_flat_map.
  exists (p, Some k). split; [exact H|]. left. reflexivity.
Qed.

Lemma Inv2_init : Inv2 Game.init.
Proof.
  split; [exact board_initial_pieces|].
  split; [intros m []|]. split; reflexivity.
Qed.

Lemma moved_pids_app history m :
  moved_pids (history ++ [m]) = {[pid (Move.piece m)]} ∪ moved_pids history.
Proof.
  unfold moved_pids. rewrite map_app, list_to_set_app_L. simpl. set_solver.
Qed.

Lemma moved_pids_existsb history n :
  existsb (fun move => Nat.eqb (pid (Move.piece move)) n) history = true
  <-> n ∈ moved_pids history.
Proof.
  unfold moved_pids. rewrite existsb_exists, elem_of_list_to_set.
  rewrite list_elem_of_In, in_map_iff. split.
  - intros [m [Hin E]]. apply Nat.eqb_eq in E. eauto.
  - intros [m [E Hin]]. exists m. split; [exact Hin|].
    apply Nat.eqb_eq. exact E.
Qed.

Lemma Inv2_moved g piece from_pos to_pos :
  Inv2 g -> get_piece g from_pos = Some piece ->
  Inv2 (after_move g piece from_pos to_pos).
Proof.
  intros [Hb [Hh [He Hm]]] Hp. unfold Inv2. simpl.
  split; [|split; [|split]].
  - intros p k. rewrite !board_get_set.
    destruct (sq_eqb p from_pos); [discriminate|].
    destruct (sq_eqb p to_pos).
    + intros [= <-]. exact (Hb _ _ Hp).
    + apply Hb.
  - intros m Hin. apply in_app_iff in Hin. destruct Hin as [Hin|[<-|[]]].
    + apply Hh. exact Hin.
    + simpl. split; [repeat split|]. split; [exact (Hb _ _ Hp)|].
      intros k Hk. exact (Hb _ _ Hk).
  - exact He.
  - rewrite moved_pids_app, Hm. reflexivity.
Qed.

Lemma Inv2_undone g m history :
  Inv2 g -> move_history g = history ++ [m] ->
  Inv2 (after_undo g m history).
Proof.
  intros [Hb [Hh [He Hm]]] Hhist. unfold Inv2. simpl.
  assert (Hlast : In m (move_history g))
    by (rewrite Hhist; apply in_app_iff; right; left; reflexivity).
  destruct (Hh m Hlast) as [_ [Hpiece Hcap]].
  split; [|split; [|split]].
  - intros p k. unfold undone_board. rewrite !board_get_set.
    destruct (sq_eqb p (Move.to_pos m)); [apply Hcap|].
    destruct (sq_eqb p (Move.from_pos m)); [|apply Hb].
    intros [= <-]. exact Hpiece.
  - intros m' Hin. apply Hh. rewrite Hhist. apply in_app_iff. auto.
  - exact He.
  - rewrite Hm, Hhist, moved_pids_app.
    destruct (existsb _ history) eqn:Ex.
    + apply moved_pids_existsb in Ex.
      destruct (Nat.eqb (length history) 0) eqn:El.
      * apply Nat.eqb_eq in El. destruct history; [|discriminate El].
        unfold moved_pids in Ex. simpl in Ex. set_solver.
      * simpl. set_solver.
    + rewrite orb_true_r.
      assert (Hnot : pid (Move.piece m) ∉ moved_pids history).
      { intros Hin. apply moved_pids_existsb in Hin. congruence. }
      set_solver.
Qed.

(** Every reachable state satisfies [Inv2]. *)
Lemma Reachable_Inv2 g : Reachable create_piece g -> Inv2 g.
Proof.
  induction 1 as [|g _ _|g from_pos to_pos promotion_piece _ IH|g _ IH].
  - exact Inv2_init.
  - exact Inv2_init.
  - destruct (legal g from_pos to_pos) eqn:Hl.
    + destruct (legal_inv _ _ _ Hl) as [piece [Hp _]].
      rewrite (make_move_eq create_piece _ _ promotion_piece _ _ Hl Hp).
      apply Inv2_moved; assumption.
    + rewrite (make_move_refused create_piece _ _ promotion_piece _ Hl).
      exact IH.
  - destruct (pop (move_history g)) as [[m history]|] eqn:Hpop.
    + pose proof (pop_inv _ _ _ Hpop) as Hhist.
      assert (Hc : Move.is_castling m = false).
      { destruct IH as [_ [Hh _]]. apply Hh. rewrite Hhist.
        apply in_app_iff. right. left. reflexivity. }
      rewrite (undo_move_eq _ _ _ Hpop Hc).
      apply Inv2_undone; assumption.
    + rewrite (undo_move_empty _ (pop_none _ Hpop)). exact IH.
Qed.

(** X12: castling, promotion and en passant never happen.  In every
    reachable state every record of the history has [is_castling],
    [is_promotion] and [is_en_passant] false and no [promoted_to], and the
    en-passant target is [None]. *)
Theorem reachable_no_special_move (g : Game.t) :
  Reachable create_piece g ->
  en_passant_target g = None
  /\ forall m, In m (move_history g) ->
               Move.is_castling m = false /\ Move.is_en_passant m = false
               /\ Move.is_promotion m = false /\ Move.promoted_to m = None.
Proof.
  intros Hreach.
  destruct (Reachable_Inv2 g Hreach) as [_ [Hh [He _]]].
  split; [exact He|]. intros m Hin. apply Hh. exact Hin.
Qed.

(** X13: no piece is ever made or changed.  In every reachable state
    every piece on the board is one of the 32 objects [create_board] made
    when the game was set up, with the class and the colour it had
    then. *)
Theorem reachable_pieces_initial (g : Game.t) (p : Square) (k : Piece) :
  Reachable create_piece g ->
  get_piece g p = Some k ->
  exists p0, In (p0, Some k) create_board.
Proof.
  intros Hreach Hk.
  destruct (Reachable_Inv2 g Hreach) as [Hb _].
  specialize (Hb _ _ Hk). unfold initial_pieces in Hb.
  apply in_flat_map in Hb. destruct Hb as [[p0 [k0|]] [Hin Hk0]].
  - destruct Hk0 as [<-|[]]. exists p0. exact Hin.
  - destruct Hk0.
Qed.

(** X14: the [has_moved] flags agree with the history.  In every
    reachable state a piece has [has_moved] set exactly when some record
    of the history moves that piece: the flag [undo_move] clears by
    scanning the remaining history is the right one. *)
Theorem reachable_has_moved (g : Game.t) (n : nat) :
  Reachable create_piece g ->
  (n ∈ has_moved g
   <-> exists m, In m (move_history g) /\ pid (Move.piece m) = n).
Proof.
  intros Hreach.
  destruct (Reachable_Inv2 g Hreach) as [_ [_ [_ Hm]]].
  rewrite Hm. unfold moved_pids.
  rewrite elem_of_list_to_set, list_elem_of_In, in_map_iff.
  split; intros [m [H1 H2]]; exists m; auto.
Qed.

End NeverHappens.

Lemma reachable_no_special_move_witness :
  Game.en_passant_target Positions.pawn_on_seventh = None
  /\ forall m, In m (Game.move_history Positions.pawn_on_seventh) ->
               Move.is_castling m = false /\ Move.is_en_passant m = false
               /\ Move.is_promotion m = false /\ Move.promoted_to m = None.
Proof.
  apply (reachable_no_special_move Positions.create_piece
                                   Positions.pawn_on_seventh).
  apply play_reachable, Reach.reach_init.
Defined.

Lemma reachable_pieces_initial_witness :
  exists p0, In (p0, Some (mkPiece 16 Pawn White)) Game.create_board.
Proof.
  apply (reachable_pieces_initial Positions.create_piece
                                  Positions.pawn_on_seventh (1, 1)).
  - apply play_reachable, Reach.reach_init.
  - vm_compute. reflexivity.
Defined.

Lemma reachable_has_moved_witness :
  16%nat ∈ Game.has_moved Positions.pawn_on_seventh
  <-> exists m, In m (Game.move_history Positions.pawn_on_seventh)
                /\ pid (Move.piece m) = 16%nat.
Proof.
  apply (reachable_has_moved Positions.create_piece Positions.pawn_on_seventh).
  apply play_reachable, Reach.reach_init.
Defined.

(** * Checkmate and stalemate tests *)

Section MateTests.
Import Game Closed.

(** X15: [is_checkmate] and [is_stalemate] never both return [True] for
    the same colour in the same state; when [is_checkmate] returns [True]
    the colour is in check, when [is_stalemate] returns [True] it is not,
    and in both cases [get_legal_moves] returns the empty list.  None of
    the three calls changes the state. *)
Theorem checkmate_stalemate_exclusive (g : Game.t) (c : Color) :
  exists checkmate' stalemate' moves,
    is_checkmate c g = Return checkmate' g
    /\ is_stalemate c g = Return stalemate' g
    /\ get_legal_moves c g = Return moves g
    /\ checkmate' && stalemate' = false
    /\ (checkmate' = true -> is_in_check g c = true /\ moves = [])
    /\ (stalemate' = true -> is_in_check g c = false /\ moves = []).
Proof.
  exists (checkmate g c), (stalemate g c), (legal_moves g c).
  split; [apply is_checkmate_eq|]. split; [apply is_stalemate_eq|].
  split; [apply get_legal_moves_eq|].
  unfold checkmate, stalemate.
  destruct (is_in_check g c); destruct (legal_moves g c); simpl;
    repeat split; intros; discriminate.
Qed.

Lemma legal_moves_other_side_nil g c :
  Dict.wf (board g) -> c <> current_turn g -> legal_moves g c = [].
Proof.
  intros Hwf Hc. unfold legal_moves. apply filter_nil.
  intros [from_pos to_pos] Hin.
  unfold get_all_possible_moves in Hin. apply in_flat_map in Hin.
  destruct Hin as [[pos [piece|]] [Hitem Hmv]]; [|destruct Hmv].
  destruct (color_eqb (color piece) c) eqn:Hpc; [|destruct Hmv].
  apply in_map_iff in Hmv. destruct Hmv as [mv [[= <- <-] _]].
  apply color_eqb_eq in Hpc. unfold legal, get_piece.
  apply (board_get_In _ _ _ Hwf) in Hitem. rewrite Hitem.
  destruct (color_eqb (color piece) (current_turn g)) eqn:Ht; [|reflexivity].
  apply color_eqb_eq in Ht. congruence.
Qed.

(** X16: asked about the side that is not to move, the two tests only
    look at the check: [is_checkmate] returns [True] exactly when that
    side is in check and [is_stalemate] exactly when it is not, whatever
    moves that side has on the board (the board being a dict with unique
    keys). *)
Theorem mate_tests_other_side (g : Game.t) (c : Color) :
  Dict.wf (board g) -> c <> current_turn g ->
  is_checkmate c g = Return (is_in_check g c) g
  /\ is_stalemate c g = Return (negb (is_in_check g c)) g.
Proof.
  intros Hwf Hc.
  rewrite is_checkmate_eq, is_stalemate_eq. unfold checkmate, stalemate.
  rewrite (legal_moves_other_side_nil g c Hwf Hc). simpl.
  rewrite !andb_true_r. split; reflexivity.
Qed.

End MateTests.

Lemma mate_tests_other_side_witness :
  Game.is_checkmate Black Game.init
  = Game.Return (Game.is_in_check Game.init Black) Game.init
  /\ Game.is_stalemate Black Game.init
     = Game.Return (negb (Game.is_in_check Game.init Black)) Game.init.
Proof.
  apply (mate_tests_other_side Game.init Black).
  - apply wfb_wf. vm_compute. reflexivity.
  - simpl. discriminate.
Defined.

(** * The move lists of the interface *)

Section InterfaceLists.
Import Game Closed Interface.
Variable create_piece : string -> Color -> Exn + Piece.

Lemma _get_castling_moves_eq c g :
  _get_castling_moves c g
  = Return ((if can_castle g c "kingside"
             then [(if color_eqb c Black then 0 else 7, 6)] else [])
            ++ (if can_castle g c "queenside"
                then [(if color_eqb c Black then 0 else 7, 2)] else []))
           g.
Proof.
  unfold _get_castling_moves. rewrite !bind_call.
  destruct (can_castle g c "kingside"); destruct (can_castle g c "queenside");
    reflexivity.
Qed.

Lemma _get_legal_moves_for_piece_eq position piece g :
  get_piece g position = Some piece ->
  exists castling,
    _get_legal_moves_for_piece position g
    = Return (List.filter (legal g position)
                          (Pieces.possible_moves piece position (board g))
              ++ castling) g
    /\ (kind piece <> King -> castling = []).
Proof.
  intros Hp. unfold _get_legal_moves_for_piece. rewrite bind_call, Hp, bind_call.
  rewrite (bind_eq _ _ _ _ _
             (filterM_eq _ (legal g position) g
                         (fun x => is_legal_move_eq position x g) _)).
  destruct (kind_eqb (kind piece) King) eqn:Ek.
  - rewrite (bind_eq _ _ _ _ _ (_get_castling_moves_eq (color piece) g)).
    eexists. split; [reflexivity|].
    apply kind_eqb_eq in Ek. contradiction.
  - exists []. rewrite app_nil_r. split; reflexivity.
Qed.

(** X17: for a piece that is not a king, the squares
    [_get_legal_moves_for_piece] lists are exactly the destinations
    [make_move] accepts from the square of the piece; the call leaves the
    game as it is. *)
Theorem offered_moves_are_accepted
        (g : Game.t) (position : Square) (piece : Piece) :
  get_piece g position = Some piece -> kind piece <> King ->
  exists offered,
    _get_legal_moves_for_piece position g = Return offered g
    /\ forall to_pos promotion_piece,
        In to_pos offered
        <-> exists g', make_move create_piece position to_pos promotion_piece g
                       = Return true g'.
Proof.
  intros Hp Hk.
  destruct (_get_legal_moves_for_piece_eq position piece g Hp)
    as [castling [Heq Hnil]].
  rewrite (Hnil Hk), app_nil_r in Heq.
  eexists. split; [exact Heq|].
  intros to_pos promotion_piece. rewrite filter_In. split.
  - intros [_ Hl]. exists (after_move g piece position to_pos).
    apply make_move_eq; assumption.
  - intros [g' Hmk].
    destruct (legal g position to_pos) eqn:Hl.
    + destruct (legal_inv _ _ _ Hl) as [piece' [Hp' [_ [Hin _]]]].
      rewrite Hp in Hp'. injection Hp' as <-. auto.
    + rewrite (make_move_refused create_piece _ _ promotion_piece _ Hl) in Hmk.
      discriminate.
Qed.

(** X18: the castling squares the interface offers are never accepted.
    For a king standing on file 4 of the home row of colour [c],
    [_get_castling_moves] lists (row, 6) when [can_castle] allows the
    kingside and (row, 2) when it allows the queenside, and [make_move]
    from the king's square to any listed square returns [False] and
    changes nothing. *)
Theorem offered_castling_is_refused
        (g : Game.t) (c : Color) (king : Piece) :
  let row := if color_eqb c Black then 0 else 7 in
  get_piece g (row, 4) = Some king -> kind king = King ->
  exists offered,
    _get_castling_moves c g = Return offered g
    /\ (can_castle g c "kingside" = true -> In (row, 6) offered)
    /\ (can_castle g c "queenside" = true -> In (row, 2) offered)
    /\ forall to_pos promotion_piece,
        In to_pos offered ->
        make_move create_piece (row, 4) to_pos promotion_piece g
        = Return false g.
Proof.
  cbv zeta. intros Hp Hk. eexists.
  split; [apply _get_castling_moves_eq|].
  split; [intros ->; left; reflexivity|].
  split; [intros ->; apply in_app_iff; right; left; reflexivity|].
  intros to_pos promotion_piece Hin.
  apply make_move_refused. unfold legal. rewrite Hp.
  destruct (sq_in to_pos _) eqn:E; [|rewrite andb_false_r; reflexivity].
  apply sq_in_In in E. pose proof (king_moves_near _ _ _ _ Hk E) as Hnear.
  apply in_app_iff in Hin.
  destruct Hin as [Hin|Hin];
    [destruct (can_castle g c "kingside")
    |destruct (can_castle g c "queenside")];
    simpl in Hin; try contradiction;
    destruct Hin as [<-|[]]; simpl in Hnear; lia.
Qed.

End InterfaceLists.

Lemma offered_moves_are_accepted_witness :
  exists offered,
    Interface._get_legal_moves_for_piece (7, 6) Game.init
    = Game.Return offered Game.init
    /\ forall to_pos promotion_piece,
        In to_pos offered
        <-> exists g', Game.make_move Positions.create_piece (7, 6) to_pos
                                      promotion_piece Game.init
                       = Game.Return true g'.
Proof.
  apply (offered_moves_are_accepted Positions.create_piece Game.init (7, 6)
                                    (mkPiece 30 Knight White)).
  - vm_compute. reflexivity.
  - discriminate.
Defined.

Lemma offered_castling_is_refused_witness :
  exists offered,
    Interface._get_castling_moves White Positions.italian
    = Game.Return offered Positions.italian
    /\ (Game.can_castle Positions.italian White "kingside" = true ->
        In (7, 6) offered)
    /\ (Game.can_castle Positions.italian White "queenside" = true ->
        In (7, 2) offered)
    /\ forall to_pos promotion_piece,
        In to_pos offered ->
        Game.make_move Positions.create_piece (7, 4) to_pos promotion_piece
                       Positions.italian
        = Game.Return false Positions.italian.
Proof.
  apply (offered_castling_is_refused Positions.create_piece Positions.italian
                                     White (mkPiece 28 King White)).
  - vm_compute. reflexivity.
  - reflexivity.
Defined.

(** * Further properties of the configuration *)

Section ConfigMore.
Import DeepCore.

(** X19: [config] never adds or removes a key: whatever the keyword
    arguments, and whether the call returns or raises, the stored
    configuration afterwards has exactly the keys it had before. *)
Theorem config_keeps_keys
        (_config : gmap string Value) (kwargs : list (string * Value))
        (key : string) :
  is_Some (stored (config _config kwargs) !! key) <-> is_Some (_config !! key).
Proof.
  revert _config. induction kwargs as [|[k v] rest IH]; intros cfg; simpl.
  - reflexivity.
  - case_bool_decide as Hk; simpl; [|reflexivity].
    rewrite IH. destruct (decide (k = key)) as [->|Hne].
    + rewrite lookup_insert_eq. split; intros _; [exact Hk|eauto].
    + rewrite lookup_insert_ne by exact Hne. reflexivity.
Qed.

(** X20: when every keyword is a key of the configuration (keywords of a
    call are pairwise distinct), [config] returns without raising; the
    stored configuration then maps every supplied key to the supplied
    value and every other key to what it held before. *)
Theorem config_known_keys
        (_config : gmap string Value) (kwargs : list (string * Value)) :
  (forall kv, In kv kwargs -> is_Some (_config !! fst kv)) ->
  List.NoDup (map fst kwargs) ->
  exists _config',
    config _config kwargs = Configured _config'
    /\ (forall key value, In (key, value) kwargs ->
                          _config' !! key = Some value)
    /\ (forall key, ~ In key (map fst kwargs) ->
                    _config' !! key = _config !! key).
Proof.
  revert _config. induction kwargs as [|[k v] rest IH]; intros cfg Hall Hnd.
  - exists cfg. split; [reflexivity|]. split; [intros ? ? []|reflexivity].
  - simpl in Hnd. apply List.NoDup_cons_iff in Hnd. destruct Hnd as [Hk Hnd].
    assert (Hrest : forall kv, In kv rest -> is_Some (<[k:=v]> cfg !! fst kv)).
    { intros kv Hin. destruct (decide (k = fst kv)) as [<-|Hne].
      - rewrite lookup_insert_eq. eauto.
      - rewrite lookup_insert_ne by exact Hne. apply Hall. right. exact Hin. }
    destruct (IH _ Hrest Hnd) as [cfg' [Hc [Hin' Hout']]].
    exists cfg'. split; [|split].
    + simpl. rewrite bool_decide_eq_true_2; [exact Hc|].
      apply (Hall (k, v)). left. reflexivity.
    + intros key value [[= <- <-]|Hin].
      * rewrite (Hout' k Hk). apply lookup_insert_eq.
      * apply Hin'. exact Hin.
    + intros key Hnot. simpl in Hnot.
      rewrite Hout' by tauto. apply lookup_insert_ne. tauto.
Qed.

End ConfigMore.

Lemma config_known_keys_witness :
  exists _config',
    DeepCore.config DeepCore.default_config
      [("depth"%string, DeepCore.Int 12); ("dev_mode"%string, DeepCore.Bool true)]
    = DeepCore.Configured _config'
    /\ (forall key value,
           In (key, value)
              [("depth"%string, DeepCore.Int 12);
               ("dev_mode"%string, DeepCore.Bool true)] ->
           _config' !! key = Some value)
    /\ (forall key,
           ~ In key (map fst [("depth"%string, DeepCore.Int 12);
                              ("dev_mode"%string, DeepCore.Bool true)]) ->
           _config' !! key = DeepCore.default_config !! key).
Proof.
  apply (config_known_keys DeepCore.default_config
           [("depth"%string, DeepCore.Int 12);
            ("dev_mode"%string, DeepCore.Bool true)]).
  - intros kv [<-|[<-|[]]]; vm_compute; eauto.
  - simpl. repeat constructor; simpl; intuition discriminate.
Defined.

(** * Kings and checks in the reachable states *)

Section KingsAndChecks.
Import Game Closed Reach Reach3.
Variable create_piece : string -> Color -> Exn + Piece.

Lemma ray_same self b1 b2 dr dc n :
  same_squares b1 b2 ->
  forall r c, Pieces.ray n self b1 dr dc r c = Pieces.ray n self b2 dr dc r c.
Proof.
  intros Hs. induction n as [|n IH]; intros r c; simpl; [reflexivity|].
  rewrite Hs, IH. reflexivity.
Qed.

(** The candidates of a piece depend on the board only through the piece
    on each square. *)
Lemma possible_moves_same self pos b1 b2 :
  same_squares b1 b2 ->
  Pieces.possible_moves self pos b1 = Pieces.possible_moves self pos b2.
Proof.
  intros Hs. destruct pos as [r c].
  assert (Hstep : forall offs, Pieces.step_moves self (r, c) b1 offs
                               = Pieces.step_moves self (r, c) b2 offs).
  { intros offs. unfold Pieces.step_moves. apply flat_map_ext.
    intros [dr dc]. rewrite Hs. reflexivity. }
  assert (Hline : forall dirs, Pieces.line_moves self (r, c) b1 dirs
                               = Pieces.line_moves self (r, c) b2 dirs).
  { intros dirs. unfold Pieces.line_moves. apply flat_map_ext.
    intros [dr dc]. apply ray_same. exact Hs. }
  unfold Pieces.possible_moves. destruct (kind self); auto.
  unfold Pieces.pawn_moves. rewrite !Hs. f_equal.
  apply flat_map_ext. intros off. rewrite Hs. reflexivity.
Qed.

Lemma attacked_same b1 b2 p c :
  same_squares b1 b2 -> attacked b1 p c -> attacked b2 p c.
Proof.
  intros Hs [q [a [Hq [Hc Hin]]]]. exists q, a.
  rewrite <- Hs, <- (possible_moves_same a q b1 b2 Hs). auto.
Qed.

Lemma same_squares_sym b1 b2 : same_squares b1 b2 -> same_squares b2 b1.
Proof. intros H p. symmetry. apply H. Qed.

Lemma sound_same b1 b2 wk bk turn :
  same_squares b1 b2 -> sound b1 wk bk turn -> sound b2 wk bk turn.
Proof.
  intros Hs [Hk Ha]. split.
  - intros c. destruct (Hk c) as [k H]. exists k. rewrite <- Hs. exact H.
  - intros H. apply Ha. exact (attacked_same _ _ _ _ (same_squares_sym _ _ Hs) H).
Qed.

Lemma history_sound_same ms :
  forall b1 b2 wk bk turn,
    same_squares b1 b2 ->
    history_sound ms b1 wk bk turn -> history_sound ms b2 wk bk turn.
Proof.
  induction ms as [|m rest IH]; intros b1 b2 wk bk turn Hs; simpl; [tauto|].
  intros [H1 H2]. pose proof (undone_board_same m _ _ Hs) as Hs'.
  split; [exact (sound_same _ _ _ _ _ Hs' H1)|exact (IH _ _ _ _ _ Hs' H2)].
Qed.

(** [is_square_under_attack] decides [attacked] on a board whose keys are
    unique. *)
Lemma is_square_under_attack_iff g p c :
  Dict.wf (board g) ->
  (is_square_under_attack g p c = true <-> attacked (board g) p c).
Proof.
  intros Hwf. unfold is_square_under_attack, attacked.
  rewrite existsb_exists. split.
  - intros [[q [a|]] [Hin H]]; [|discriminate].
    apply andb_true_iff in H. destruct H as [Hc Hp].
    exists q, a. split; [apply (board_get_In _ _ _ Hwf); exact Hin|].
    split; [apply color_eqb_eq; exact Hc|apply sq_in_In; exact Hp].
  - intros [q [a [Hq [Hc Hp]]]]. exists (q, Some a).
    split; [apply (board_get_In _ _ _ Hwf); exact Hq|].
    apply andb_true_iff. split; [apply color_eqb_eq; exact Hc|].
    apply sq_in_In. exact Hp.
Qed.

Lemma Inv3_init : Inv3 Game.init.
Proof.
  split; [|exact I]. split.
  - intros [|]; eexists; (split; [vm_compute; reflexivity|]);
      split; reflexivity.
  - intros H.
    apply (is_square_under_attack_iff Game.init (0, 4) White) in H.
    + vm_compute in H. discriminate.
    + apply wfb_wf. vm_compute. reflexivity.
Qed.

Lemma moved_cached g piece from_pos to_pos c :
  cached (white_king_pos (moved g piece from_pos to_pos))
         (black_king_pos (moved g piece from_pos to_pos)) c
  = if kind_eqb (kind piece) King && color_eqb (color piece) c
    then to_pos
    else cached (white_king_pos g) (black_king_pos g) c.
Proof.
  unfold cached. simpl.
  destruct (kind_eqb (kind piece) King), (color piece), c; reflexivity.
Qed.

Lemma hypothetical_cached g piece from_pos to_pos c :
  get_king_position (hypothetical g piece from_pos to_pos) c
  = cached (white_king_pos (moved g piece from_pos to_pos))
           (black_king_pos (moved g piece from_pos to_pos)) c.
Proof.
  unfold get_king_position, hypothetical, cached. simpl.
  destruct (kind_eqb (kind piece) King), (color piece), c; reflexivity.
Qed.

Lemma opposite_involutive c : opposite (opposite c) = c.
Proof. destruct c; reflexivity. Qed.

Lemma not_own_target self (b : Board) p k :
  Pieces.is_empty_square (board_get b p)
  || Pieces.is_enemy_piece self (board_get b p) = true ->
  board_get b p = Some k -> color k <> color self.
Proof.
  intros H Hk. rewrite Hk in H. simpl in H.
  apply negb_true_iff in H. intros E. rewrite E in H.
  destruct (color self); discriminate.
Qed.

(** An accepted move leaves both kings on their cached squares and the
    mover out of check. *)
Lemma moved_sound g piece from_pos to_pos :
  Inv g ->
  sound (board g) (white_king_pos g) (black_king_pos g) (current_turn g) ->
  legal g from_pos to_pos = true -> get_piece g from_pos = Some piece ->
  let g' := moved g piece from_pos to_pos in
  sound (board g') (white_king_pos g') (black_king_pos g') (current_turn g').
Proof.
  intros [Hwf [Hkc _]] [Hkings Hsafe] Hl Hp. cbv zeta.
  destruct (legal_inv _ _ _ Hl) as [piece' [Hp' [Hc [Hin Hck]]]].
  rewrite Hp in Hp'. injection Hp' as <-.
  pose proof (possible_moves_away _ _ _ _ Hin) as Hne.
  destruct (possible_moves_in _ _ _ _ Hin) as [_ Hocc].
  split.
  - intros c. rewrite moved_cached.
    change (board (moved g piece from_pos to_pos))
      with (Dict.set (Dict.set (board g) to_pos (Some piece)) from_pos None).
    destruct (Hkings c) as [k0 [Hk0 [Hk0k Hk0c]]].
    destruct (kind_eqb (kind piece) King && color_eqb (color piece) c) eqn:E.
    + apply andb_true_iff in E. destruct E as [Ek Ecol].
      apply kind_eqb_eq in Ek. apply color_eqb_eq in Ecol.
      exists piece. rewrite !board_get_set, sq_eqb_refl.
      apply sq_eqb_neq in Hne. rewrite Hne. auto.
    + exists k0. rewrite !board_get_set.
      assert (Hnf : cached (white_king_pos g) (black_king_pos g) c <> from_pos).
      { intros Heq. rewrite Heq in Hk0. unfold get_piece in Hp.
        rewrite Hp in Hk0. injection Hk0 as <-.
        apply kind_eqb_eq in Hk0k. apply color_eqb_eq in Hk0c.
        rewrite Hk0k, Hk0c in E. discriminate. }
      assert (Hnt : cached (white_king_pos g) (black_king_pos g) c <> to_pos).
      { intros Heq. rewrite Heq in Hk0.
        pose proof (not_own_target _ _ _ _ Hocc Hk0) as Hcol.
        assert (Hopp : opposite (current_turn g) = c).
        { rewrite <- Hc. destruct c, (color piece), (color k0);
            simpl in *; congruence. }
        apply Hsafe. exists from_pos, piece. rewrite Hopp, Heq. auto. }
      apply sq_eqb_neq in Hnf. apply sq_eqb_neq in Hnt.
      rewrite Hnf, Hnt. auto.
  - change (current_turn (moved g piece from_pos to_pos))
      with (opposite (current_turn g)).
    rewrite opposite_involutive, <- Hc, <- hypothetical_cached.
    intros Hatt.
    assert (Hwf' : Dict.wf (board (hypothetical g piece from_pos to_pos))).
    { rewrite hypothetical_board. apply wf_set, wf_set. exact Hwf. }
    change (board (moved g piece from_pos to_pos))
      with (Dict.set (Dict.set (board g) to_pos (Some piece)) from_pos None)
      in Hatt.
    rewrite <- (hypothetical_board g piece from_pos to_pos) in Hatt.
    apply (is_square_under_attack_iff _ _ _ Hwf') in Hatt.
    unfold is_in_check in Hck.
    replace (if color_eqb (color piece) White then Black else White)
      with (opposite (color piece)) in Hck
      by (destruct (color piece); reflexivity).
    congruence.
Qed.

Lemma Inv3_moved g piece from_pos to_pos :
  Inv g -> Inv3 g ->
  legal g from_pos to_pos = true -> get_piece g from_pos = Some piece ->
  Inv3 (after_move g piece from_pos to_pos).
Proof.
  intros HI [Hs Hh] Hl Hp.
  pose proof (moved_sound g piece from_pos to_pos HI Hs Hl Hp) as Hs'.
  destruct HI as [Hwf [Hkc _]].
  destruct (legal_inv _ _ _ Hl) as [piece' [Hp' [_ [Hin _]]]].
  rewrite Hp in Hp'. injection Hp' as <-.
  apply possible_moves_away in Hin.
  destruct (moved_undone g piece from_pos to_pos Hkc Hp Hin) as [Hsq [Hw Hb]].
  unfold Inv3, after_move.
  change (board (set_game_state ?x _)) with (board x).
  change (white_king_pos (set_game_state ?x _)) with (white_king_pos x).
  change (black_king_pos (set_game_state ?x _)) with (black_king_pos x).
  change (current_turn (set_game_state ?x _)) with (current_turn x).
  change (move_history (set_game_state ?x _)) with (move_history x).
  split; [exact Hs'|].
  change (move_history (moved g piece from_pos to_pos))
    with (move_history g ++ [record g piece from_pos to_pos]).
  rewrite rev_app_distr. cbn [rev app history_sound].
  rewrite Hw, Hb.
  change (current_turn (moved g piece from_pos to_pos))
    with (opposite (current_turn g)).
  rewrite opposite_involutive.
  split; [exact (sound_same _ _ _ _ _ Hsq Hs)
         |exact (history_sound_same _ _ _ _ _ _ Hsq Hh)].
Qed.

(** Every reachable state has both kings on their cached squares and the
    side that is not to move out of check, and so has every state its
    history leads back to. *)
Lemma Reachable_Inv3 g : Reachable create_piece g -> Inv3 g.
Proof.
  intros Hreach. induction Hreach
    as [|g _ _|g from_pos to_pos promotion_piece Hr IH|g Hr IH].
  - exact Inv3_init.
  - exact Inv3_init.
  - pose proof (Reachable_Inv create_piece g Hr) as HI.
    destruct (legal g from_pos to_pos) eqn:Hl.
    + destruct (legal_inv _ _ _ Hl) as [piece [Hp _]].
      rewrite (make_move_eq create_piece _ _ promotion_piece _ _ Hl Hp).
      apply Inv3_moved; assumption.
    + rewrite (make_move_refused create_piece _ _ promotion_piece _ Hl).
      exact IH.
  - pose proof (Reachable_Inv create_piece g Hr) as [_ [_ Hh]].
    destruct (pop (move_history g)) as [[m history]|] eqn:Hpop.
    + pose proof (pop_inv _ _ _ Hpop) as Hhist.
      destruct IH as [_ Hhs].
      rewrite Hhist, rev_app_distr in Hh, Hhs.
      cbn [rev app history_ok] in Hh. cbn [rev app history_sound] in Hhs.
      destruct Hh as [Hc _]. destruct Hhs as [Hs1 Hs2].
      rewrite (undo_move_eq _ _ _ Hpop Hc).
      split; assumption.
    + rewrite (undo_move_empty _ (pop_none _ Hpop)). exact IH.
Qed.

(** X21: in every reachable state the side that is not to move -- the
    side that has just moved -- is not in check: [is_in_check] returns
    [False] for it. *)
Theorem reachable_mover_not_in_check (g : Game.t) :
  Reachable create_piece g ->
  is_in_check g (opposite (current_turn g)) = false.
Proof.
  intros Hreach.
  destruct (Reachable_Inv create_piece g Hreach) as [Hwf _].
  destruct (Reachable_Inv3 g Hreach) as [[_ Hsafe] _].
  unfold is_in_check.
  destruct (is_square_under_attack g _ _) eqn:E; [|reflexivity].
  apply (is_square_under_attack_iff _ _ _ Hwf) in E.
  exfalso. apply Hsafe.
  replace (if color_eqb (opposite (current_turn g)) White then Black else White)
    with (current_turn g) in E by (destruct (current_turn g); reflexivity).
  exact E.
Qed.

(** X22: kings are never taken.  In every reachable state each colour has
    exactly one king on the board, and it stands on the square
    [get_king_position] returns for that colour. *)
Theorem reachable_kings_on_board (g : Game.t) (c : Color) :
  Reachable create_piece g ->
  (exists k, get_piece g (get_king_position g c) = Some k
             /\ kind k = King /\ color k = c)
  /\ forall p k, get_piece g p = Some k -> kind k = King -> color k = c ->
                 p = get_king_position g c.
Proof.
  intros Hreach.
  destruct (Reachable_Inv create_piece g Hreach) as [_ [Hkc _]].
  destruct (Reachable_Inv3 g Hreach) as [[Hkings _] _].
  split.
  - exact (Hkings c).
  - intros p k Hp Hk Hc. rewrite (Hkc _ _ Hp Hk), Hc. reflexivity.
Qed.

End KingsAndChecks.

Lemma reachable_mover_not_in_check_witness :
  Game.is_in_check Positions.italian
                   (Game.opposite (Game.current_turn Positions.italian))
  = false.
Proof.
  apply (reachable_mover_not_in_check Positions.create_piece Positions.italian).
  apply play_reachable, Reach.reach_init.
Defined.

Lemma reachable_kings_on_board_witness :
  (exists k, Game.get_piece Positions.italian
                            (Game.get_king_position Positions.italian Black)
             = Some k
             /\ kind k = King /\ color k = Black)
  /\ forall p k, Game.get_piece Positions.italian p = Some k ->
                 kind k = King -> color k = Black ->
                 p = Game.get_king_position Positions.italian Black.
Proof.
  apply (reachable_kings_on_board Positions.create_piece Positions.italian
                                  Black).
  apply play_reachable, Reach.reach_init.
Defined.

(** * Lists of moves *)

Section MoveLists.
Import Game Closed.
Variable create_piece : string -> Color -> Exn + Piece.

(** X23: the [while True] loops of the rook, the bishop and the queen
    stop by themselves: along each direction of the piece, from any
    origin on any board, a bound of [BOARD_SIZE] iterations or more
    collects the same squares as the bound [BOARD_SIZE], so the loop ends
    by leaving the board or meeting a piece and not by the bound. *)
Theorem ray_loop_terminates
        (self : Piece) (b : Board) (dr dc r c : Z) (n : nat) :
  In (dr, dc) (own_directions (kind self)) ->
  (Z.to_nat BOARD_SIZE <= n)%nat ->
  Pieces.ray n self b dr dc r c
  = Pieces.ray (Z.to_nat BOARD_SIZE) self b dr dc r c.
Proof.
  intros Hin Hn. unfold BOARD_SIZE in *.
  apply ray_enough; [|lia|lia].
  assert (Hall : In (dr, dc) Pieces.all_directions).
  { unfold own_directions in Hin.
    destruct (kind self); try exact Hin; simpl in Hin; simpl;
      repeat (destruct Hin as [Hin|Hin]; [rewrite <- Hin; tauto|]);
      destruct Hin. }
  simpl in Hall. unfold direction.
  repeat (destruct Hall as [[= <- <-]|Hall]; [lia|]). destruct Hall.
Qed.

(** X24: [is_square_under_attack] and [get_all_possible_moves] agree: a
    square is under attack by a colour exactly when
    [get_all_possible_moves] of that colour holds a pair ending on it. *)
Theorem attack_iff_possible_move (g : Game.t) (p : Square) (c : Color) :
  is_square_under_attack g p c = true
  <-> exists q, In (q, p) (get_all_possible_moves g c).
Proof.
  unfold is_square_under_attack, get_all_possible_moves.
  rewrite existsb_exists. split.
  - intros [[q [a|]] [Hin H]]; [|discriminate].
    apply andb_true_iff in H. destruct H as [Hc Hp].
    exists q. apply in_flat_map. exists (q, Some a). split; [exact Hin|].
    rewrite Hc. apply in_map. apply sq_in_In. exact Hp.
  - intros [q Hq]. apply in_flat_map in Hq.
    destruct Hq as [[q' [a|]] [Hin H]]; [|destruct H].
    destruct (color_eqb (color a) c) eqn:Hc; [|destruct H].
    apply in_map_iff in H. destruct H as [mv [[= -> ->] Hmv]].
    exists (q, Some a). split; [exact Hin|].
    rewrite Hc. simpl. apply sq_in_In. exact Hmv.
Qed.

(** X25: for the side to move, [get_legal_moves] lists exactly the moves
    [make_move] accepts (the board being a dict with unique keys): a pair
    is in the list if and only if [make_move] returns [True] for it. *)
Theorem legal_moves_are_the_accepted_moves
        (g : Game.t) (from_pos to_pos : Square) (promotion_piece : string) :
  Dict.wf (board g) ->
  exists moves,
    get_legal_moves (current_turn g) g = Return moves g
    /\ (In (from_pos, to_pos) moves
        <-> exists g', make_move create_piece from_pos to_pos promotion_piece g
                       = Return true g').
Proof.
  intros Hwf. exists (legal_moves g (current_turn g)).
  split; [apply get_legal_moves_eq|].
  unfold legal_moves. rewrite filter_In. split.
  - intros [_ Hl]. destruct (legal_inv _ _ _ Hl) as [piece [Hp _]].
    exists (after_move g piece from_pos to_pos).
    apply make_move_eq; assumption.
  - intros [g' Hmk]. destruct (legal g from_pos to_pos) eqn:Hl.
    + split; [|reflexivity].
      destruct (legal_inv _ _ _ Hl) as [piece [Hp [Hc [Hin _]]]].
      unfold get_all_possible_moves. apply in_flat_map.
      exists (from_pos, Some piece).
      split; [apply (board_get_In _ _ _ Hwf); exact Hp|].
      rewrite Hc. destruct (current_turn g); simpl; apply in_map; exact Hin.
    + rewrite (make_move_refused create_piece _ _ promotion_piece _ Hl) in Hmk.
      discriminate.
Qed.

End MoveLists.

Lemma ray_loop_terminates_witness :
  Pieces.ray 20 (mkPiece 31 Rook White) (Game.board Positions.italian)
             0 (-1) 7 7
  = Pieces.ray (Z.to_nat BOARD_SIZE) (mkPiece 31 Rook White)
               (Game.board Positions.italian) 0 (-1) 7 7.
Proof.
  apply (ray_loop_terminates (mkPiece 31 Rook White)
                             (Game.board Positions.italian) 0 (-1) 7 7 20).
  - simpl. tauto.
  - vm_compute. lia.
Defined.

Lemma legal_moves_are_the_accepted_moves_witness :
  exists moves,
    Game.get_legal_moves (Game.current_turn Game.init) Game.init
    = Game.Return moves Game.init
    /\ (In ((6, 4), (4, 4)) moves
        <-> exists g', Game.make_move Positions.create_piece (6, 4) (4, 4)
                                      "queen" Game.init
                       = Game.Return true g').
Proof.
  apply (legal_moves_are_the_accepted_moves Positions.create_piece Game.init
                                            (6, 4) (4, 4) "queen").
  apply wfb_wf. vm_compute. reflexivity.
Defined.
